(** * MathEquationSolver: the equation dispatcher and its formatting

    A shallow embedding of [src/MathEquationSolver.py]: the click handler
    [solve_equation] and its helpers [format_step_solution], [plot_graph]
    and [solve_system], over an abstract symbolic engine (SymPy), numeric
    backend (NumPy) and plotting backend (Matplotlib).

    Python strings are sequences of Unicode code points; exceptions are
    values threaded through a state-and-error monad; every call that
    leaves the application is recorded in a trace. *)

From Stdlib Require Import Ascii String DecimalString.
From Stdlib Require Import List NArith ZArith QArith Bool Lia.
From Stdlib Require Import Sorting.Sorted Sorting.Permutation.
Import ListNotations.

Set Implicit Arguments.

(** ** Python strings *)

Module PyStr.

Local Open Scope N_scope.

(** A [str] is the list of its code points. *)
Definition str := list N.

(** An ASCII literal of the source, as a [str]. *)
Definition lit (s : string) : str :=
  map N_of_ascii (list_ascii_of_string s).

(** [Py_UNICODE_ISSPACE]: the code points [str.strip()] removes. *)
Definition isspace (c : N) : bool :=
  ((9 <=? c) && (c <=? 13)) || ((28 <=? c) && (c <=? 32))
  || (c =? 133) || (c =? 160) || (c =? 5760)
  || ((8192 <=? c) && (c <=? 8202))
  || (c =? 8232) || (c =? 8233) || (c =? 8239) || (c =? 8287)
  || (c =? 12288).

Fixpoint lstrip (s : str) : str :=
  match s with
  | [] => []
  | c :: s' => if isspace c then lstrip s' else s
  end.

Definition rstrip (s : str) : str := rev (lstrip (rev s)).

(** [s.strip()] *)
Definition strip (s : str) : str := rstrip (lstrip s).

(** [s.split(sep)] for a one-character separator: never empty. *)
Fixpoint split (sep : N) (s : str) : list str :=
  match s with
  | [] => [[]]
  | c :: s' =>
      if c =? sep then [] :: split sep s'
      else match split sep s' with
           | [] => [[c]]
           | p :: ps => (c :: p) :: ps
           end
  end.

(** [c in s] for a one-character [c]. *)
Definition contains (c : N) (s : str) : bool := existsb (N.eqb c) s.

(** [sep.join(parts)] *)
Fixpoint join (sep : str) (parts : list str) : str :=
  match parts with
  | [] => []
  | [p] => p
  | p :: ps => p ++ sep ++ join sep ps
  end.

(** [str(n)] for a non-negative integer. *)
Definition of_nat (n : nat) : str :=
  lit (NilEmpty.string_of_uint (Nat.to_uint n)).

Definition eqb (a b : str) : bool :=
  if list_eq_dec N.eq_dec a b then true else false.

(** [a <= b] in Python: lexicographic on code points. *)
Fixpoint leb (a b : str) : bool :=
  match a, b with
  | [], _ => true
  | _ :: _, [] => false
  | x :: a', y :: b' =>
      if x <? y then true
      else if x =? y then leb a' b' else false
  end.


End PyStr.
Import PyStr.

(** ** Exceptions

    The source tells three kinds of raised values apart: a [TypeError]
    (caught inside [plot_graph]), any other instance of [Exception] (caught
    by the two [except Exception] clauses), and what lies outside
    [Exception] ([SystemExit], [KeyboardInterrupt], [GeneratorExit]), which
    no handler of the source catches.  The engine can raise the last kind
    too: the parser evaluates the text it is given.  [exn_str] is
    [str(e)]. *)

Inductive exn_class := TypeError | OtherException | BaseExceptionOnly.

Record exn := Exn { exn_type : exn_class; exn_str : str }.

(** [isinstance(e, Exception)] *)
Definition is_Exception (e : exn) : bool :=
  match exn_type e with
  | BaseExceptionOnly => false
  | TypeError | OtherException => true
  end.

(** ** The collaborators

    SymPy, NumPy and Matplotlib are a black box: each operation either
    returns or raises.  [Expr] is whatever [sp.sympify] returns, [Samples]
    whatever the lambdified function returns on the sample vector. *)

Record Engine := {
  Expr : Type;
  Samples : Type;
  (** [sp.sympify(s, evaluate=True)] and [sp.sympify(s)] *)
  sympify : str -> exn + Expr;
  (** [sp.solve(expr, x)], as the sequence its iteration yields *)
  solve : Expr -> exn + list Expr;
  (** [sp.diff(expr, x)] *)
  diff : Expr -> exn + Expr;
  (** [sp.integrate(expr, x)] *)
  integrate : Expr -> exn + Expr;
  (** [expr.free_symbols], as the names of its symbols *)
  free_symbols : Expr -> exn + list str;
  (** [sp.linsolve(equations, *variables)], as [list(solutions)] *)
  linsolve : list Expr -> list str -> exn + list (list Expr);
  (** [sol.evalf()] *)
  evalf : Expr -> exn + Expr;
  (** [str(expr)], what an f-string inserts *)
  to_str : Expr -> str;
  (** [sp.lambdify(x_sym, expr, "numpy")] and the call of its result *)
  lambdify : Expr -> exn + (list Q -> exn + Samples);
  (** [self.ax.plot(x_vals, y_vals, label=..., color="cyan", linewidth=2)] *)
  ax_plot : list Q -> Samples -> str -> exn + unit;
  (** [str] of the [ValueError] raised by unpacking [n] values into two names *)
  unpack_msg : nat -> str
}.

(** [np.linspace(start, stop, num)]: [num] samples, the last one [stop]. *)
Definition linspace (start stop : Q) (num : nat) : list Q :=
  let step := (stop - start) / inject_Z (Z.of_nat (num - 1)) in
  map (fun i => if (S i =? num)%nat && (1 <? num)%nat then stop
                else start + inject_Z (Z.of_nat i) * step)
      (seq 0 num).

(** [sorted(variables, key=lambda v: v.name)]: a stable sort by name. *)
Fixpoint insert_by_name (v : str) (l : list str) : list str :=
  match l with
  | [] => [v]
  | h :: t => if PyStr.leb v h then v :: l else h :: insert_by_name v t
  end.

Definition sorted (variables : list str) : list str :=
  fold_right insert_by_name [] variables.

(** [variables.update(names)] on a set kept as a duplicate-free list. *)
Definition set_update (variables names : list str) : list str :=
  fold_left
    (fun acc v => if existsb (PyStr.eqb v) acc then acc else acc ++ [v])
    names variables.

(** ** Literals of the source *)

Definition newline : str := [10%N].
(** The three code points the source file holds before [f(x) dx]. *)
Definition integral_sign : str := [226%N; 710%N; 171%N].
(** U+222B INTEGRAL *)
Definition unicode_integral : str := [8747%N].

Definition MODE_ALGEBRAIC := lit "Algebraic Equation".
Definition MODE_DIFFERENTIATION := lit "Differentiation".
Definition MODE_INTEGRATION := lit "Integration".
Definition MODE_SYSTEM := lit "System of Equations".

Definition PROMPT := lit "Please enter an equation.".
Definition PLOT_ERROR :=
  lit "Error: Unable to plot the function. Please enter a valid equation.".
Definition SEP := lit "     ".

(** ** The widget state and the state-and-error monad *)

Section Dispatcher.

Variable E : Engine.

(** Calls that leave the application, in the order they are made. *)
Inductive event :=
| CallSympify (s : str)
| CallSolve (expr : Expr E)
| CallDiff (expr : Expr E)
| CallIntegrate (expr : Expr E)
| GetFreeSymbols (expr : Expr E)
| CallLinsolve (equations : list (Expr E)) (variables : list str)
| CallEvalf (sol : Expr E)
| AxClear
| CallLambdify (expr : Expr E)
| CallLambdified (expr : Expr E) (x_vals : list Q)
| AxPlot (x_vals : list Q) (y_vals : Samples E) (label : str)
| AxHLine | AxVLine | SetXLabel | SetYLabel | AxLegend | AxGrid
| CanvasDraw.

Record Gui := {
  equation_type_combo : str;
  equation_input : str;
  solution_output : str;
  trace : list event
}.

Definition M (A : Type) : Type := Gui -> (exn + A) * Gui.

Definition ret {A} (a : A) : M A := fun g => (inr a, g).

Definition bind {A B} (m : M A) (k : A -> M B) : M B :=
  fun g => match m g with
           | (inl e, g') => (inl e, g')
           | (inr a, g') => k a g'
           end.

Definition raise {A} (e : exn) : M A := fun g => (inl e, g).

(** [try: m  except Exception as e: h e] *)
Definition try_except {A} (m : M A) (h : exn -> M A) : M A :=
  fun g => match m g with
           | (inl e, g') => if is_Exception e then h e g' else (inl e, g')
           | r => r
           end.

(** [try: m  except TypeError: h] *)
Definition try_except_TypeError {A} (m : M A) (h : M A) : M A :=
  fun g => match m g with
           | (inl e, g') =>
               match exn_type e with
               | TypeError => h g'
               | OtherException | BaseExceptionOnly => (inl e, g')
               end
           | r => r
           end.

Definition log (ev : event) (g : Gui) : Gui :=
  {| equation_type_combo := equation_type_combo g;
     equation_input := equation_input g;
     solution_output := solution_output g;
     trace := trace g ++ [ev] |}.

(** An outside call: recorded, then its result or its exception. *)
Definition call {A} (ev : event) (r : exn + A) : M A :=
  fun g => (r, log ev g).

Definition emit (ev : event) : M unit := call ev (inr tt).

(** [self.solution_output.setText(s)] *)
Definition setText (s : str) : M unit :=
  fun g => (inr tt,
            {| equation_type_combo := equation_type_combo g;
               equation_input := equation_input g;
               solution_output := s;
               trace := trace g |}).

(** [self.equation_type_combo.currentText()] *)
Definition currentText : M str := fun g => (inr (equation_type_combo g), g).

(** [self.equation_input.text()] *)
Definition text : M str := fun g => (inr (equation_input g), g).

Notation "x <- m ;; k" := (bind m (fun x => k))
  (at level 61, m at next level, right associativity).
Notation "m ;; k" := (bind m (fun _ => k))
  (at level 61, right associativity).

(** ** [format_step_solution] *)

Fixpoint format_loop (i : nat) (solutions : list (Expr E)) (formatted : str)
  : str :=
  match solutions with
  | [] => formatted
  | sol :: rest =>
      format_loop (S i) rest
        (formatted ++ lit "x" ++ of_nat (i + 1) ++ lit " = "
                   ++ to_str E sol ++ SEP)
  end.

Definition format_step_solution (solutions : list (Expr E)) : str :=
  format_loop 0 solutions (lit "Solutions:" ++ newline).

(** ** [plot_graph] *)

Definition x_vals : list Q := linspace (-10) 10 400.

Definition plot_graph (expr : Expr E) : M unit :=
  emit AxClear ;;
  plotted <-
    try_except_TypeError
      (f_lambdified <- call (CallLambdify expr) (lambdify E expr) ;;
       y_vals <- call (CallLambdified expr x_vals) (f_lambdified x_vals) ;;
       call (AxPlot x_vals y_vals (to_str E expr))
            (ax_plot E x_vals y_vals (to_str E expr)) ;;
       ret true)
      (setText PLOT_ERROR ;; ret false) ;;
  if plotted : bool then
    emit AxHLine ;; emit AxVLine ;; emit SetXLabel ;; emit SetYLabel ;;
    emit AxLegend ;; emit AxGrid ;; emit CanvasDraw
  else ret tt.

(** ** [solve_system] *)

(** [left, right = eq.split('=')] followed by the rewriting f-string. *)
Definition rewrite_equation (eq : str) : M str :=
  if contains 61 eq then
    match split 61 eq with
    | [left_; right_] =>
        ret (lit "(" ++ left_ ++ lit ") - (" ++ right_ ++ lit ")")
    | parts => raise (Exn OtherException (unpack_msg E (length parts)))
    end
  else ret eq.

(** The [for eq in equation_str.split(',')] loop. *)
Fixpoint parse_equations (eqs : list str)
         (equations : list (Expr E)) (variables : list str)
  : M (list (Expr E) * list str) :=
  match eqs with
  | [] => ret (equations, variables)
  | eq :: rest =>
      eq <- rewrite_equation (strip eq) ;;
      expr <- call (CallSympify eq) (sympify E eq) ;;
      names <- call (GetFreeSymbols expr) (free_symbols E expr) ;;
      parse_equations rest (equations ++ [expr]) (set_update variables names)
  end.

(** [[sol.evalf() for sol in solution_list[0]]] *)
Fixpoint evalf_all (sols : list (Expr E)) : M (list (Expr E)) :=
  match sols with
  | [] => ret []
  | sol :: rest =>
      v <- call (CallEvalf sol) (evalf E sol) ;;
      vs <- evalf_all rest ;;
      ret (v :: vs)
  end.

Definition format_pair (p : str * Expr E) : str :=
  fst p ++ lit " = " ++ to_str E (snd p).

(** The body of the [try] of [solve_system]. *)
Definition solve_system_body (equation_str : str) : M str :=
  parsed <- parse_equations (split 44 equation_str) [] [] ;;
  let equations := fst parsed in
  let variables := sorted (snd parsed) in
  solutions <- call (CallLinsolve equations variables)
                    (linsolve E equations variables) ;;
  match solutions with
  | [] => ret (lit "No solution found.")
  | _ :: _ =>
      let solution_list := solutions in
      match solution_list with
      | [] => ret (lit "No unique solution.")
      | first :: _ =>
          numeric_solutions <- evalf_all first ;;
          ret (join SEP (map format_pair (combine variables numeric_solutions)))
      end
  end.

Definition solve_system (equation_str : str) : M str :=
  try_except (solve_system_body equation_str)
             (fun e => ret (lit "Error solving system: " ++ exn_str e)).

(** ** [solve_equation] *)

(** The branch on the selected mode, up to the formatted text. *)
Definition dispatch (eq_type equation_str : str) (expr : Expr E) : M str :=
  if PyStr.eqb eq_type MODE_ALGEBRAIC then
    solutions <- call (CallSolve expr) (solve E expr) ;;
    let formatted_solutions := format_step_solution solutions in
    plot_graph expr ;;
    ret formatted_solutions
  else if PyStr.eqb eq_type MODE_DIFFERENTIATION then
    derivative <- call (CallDiff expr) (diff E expr) ;;
    let formatted_solutions := lit "f'(x) = " ++ to_str E derivative in
    plot_graph expr ;;
    ret formatted_solutions
  else if PyStr.eqb eq_type MODE_INTEGRATION then
    integral <- call (CallIntegrate expr) (integrate E expr) ;;
    let formatted_solutions :=
      integral_sign ++ lit "f(x) dx = " ++ to_str E integral ++ lit " + C" in
    plot_graph expr ;;
    ret formatted_solutions
  else if PyStr.eqb eq_type MODE_SYSTEM then
    solve_system equation_str
  else ret (lit "Invalid selection.").

(** The body of the [try] of [solve_equation]. *)
Definition solve_equation_body (eq_type equation_str : str) : M unit :=
  expr <- call (CallSympify equation_str) (sympify E equation_str) ;;
  formatted_solutions <- dispatch eq_type equation_str expr ;;
  setText formatted_solutions.

Definition solve_equation : M unit :=
  eq_type <- currentText ;;
  raw <- text ;;
  let equation_str := strip raw in
  match equation_str with
  | [] => setText PROMPT
  | _ :: _ =>
      try_except (solve_equation_body eq_type equation_str)
                 (fun e => setText (lit "Error: " ++ exn_str e))
  end.

End Dispatcher.

Arguments AxClear {E}.
Arguments AxHLine {E}.
Arguments AxVLine {E}.
Arguments SetXLabel {E}.
Arguments SetYLabel {E}.
Arguments AxLegend {E}.
Arguments AxGrid {E}.
Arguments CanvasDraw {E}.
Arguments CallSympify {E} s.
Arguments CallSolve {E} expr.
Arguments CallDiff {E} expr.
Arguments CallIntegrate {E} expr.
Arguments GetFreeSymbols {E} expr.
Arguments CallLinsolve {E} equations variables.
Arguments CallEvalf {E} sol.
Arguments CallLambdify {E} expr.
Arguments CallLambdified {E} expr x_vals.
Arguments AxPlot {E} x_vals y_vals label.

(** ** Vocabulary for the statements *)

Section Observations.

Variable E : Engine.

Definition with_input (s : str) (g : Gui E) : Gui E :=
  {| equation_type_combo := equation_type_combo g;
     equation_input := s;
     solution_output := solution_output g;
     trace := trace g |}.

Definition with_output (s : str) (g : Gui E) : Gui E :=
  {| equation_type_combo := equation_type_combo g;
     equation_input := equation_input g;
     solution_output := s;
     trace := trace g |}.

Definition add_events (evs : list (event E)) (g : Gui E) : Gui E :=
  {| equation_type_combo := equation_type_combo g;
     equation_input := equation_input g;
     solution_output := solution_output g;
     trace := trace g ++ evs |}.

(** Calls made by [plot_graph] (the canvas and the numeric evaluation). *)
Definition is_plot_event (ev : event E) : bool :=
  match ev with
  | AxClear | CallLambdify _ | CallLambdified _ _ | AxPlot _ _ _
  | AxHLine | AxVLine | SetXLabel | SetYLabel | AxLegend | AxGrid
  | CanvasDraw => true
  | _ => false
  end.

(** Any call other than those of [plot_graph]. *)
Definition quiet (ev : event E) : bool := negb (is_plot_event ev).

(** [m] only appends events satisfying [P], whatever its outcome. *)
Definition emits (P : event E -> bool) {A} (m : M E A) : Prop :=
  forall g, exists evs,
    trace (snd (m g)) = trace g ++ evs /\ forallb P evs = true.

(** The calls of [plot_graph] after its [try] block. *)
Definition render_events : list (event E) :=
  [AxHLine; AxVLine; SetXLabel; SetYLabel; AxLegend; AxGrid; CanvasDraw].

(** Outcome of the [try] block of [plot_graph] and the calls it makes. *)
Definition plot_try (expr : Expr E) : (exn + unit) * list (event E) :=
  match lambdify E expr with
  | inl e => (inl e, [CallLambdify expr])
  | inr f_lambdified =>
      match f_lambdified x_vals with
      | inl e => (inl e, [CallLambdify expr; CallLambdified expr x_vals])
      | inr y_vals =>
          (ax_plot E x_vals y_vals (to_str E expr),
           [CallLambdify expr; CallLambdified expr x_vals;
            AxPlot x_vals y_vals (to_str E expr)])
      end
  end.

(** Everything one call of [plot_graph expr] adds to the trace. *)
Definition plot_events (expr : Expr E) : list (event E) :=
  AxClear :: snd (plot_try expr)
  ++ match fst (plot_try expr) with
     | inr _ => render_events
     | inl _ => []
     end.

(** The exception [plot_graph expr] lets through, if any. *)
Definition plot_propagates (expr : Expr E) : option exn :=
  match fst (plot_try expr) with
  | inl e => match exn_type e with
             | TypeError => None
             | OtherException | BaseExceptionOnly => Some e
             end
  | inr _ => None
  end.

(** The [TypeError] the [try] block of [plot_graph expr] catches, if any. *)
Definition plot_type_error (expr : Expr E) : option exn :=
  match fst (plot_try expr) with
  | inl e => match exn_type e with
             | TypeError => Some e
             | OtherException | BaseExceptionOnly => None
             end
  | inr _ => None
  end.

(** The engine request of a single-expression mode, with the text the
    source formats from its answer. *)
Definition solve_step (eq_type : str) (expr : Expr E)
  : option (event E * (exn + str)) :=
  if PyStr.eqb eq_type MODE_ALGEBRAIC then
    Some (CallSolve expr,
          match solve E expr with
          | inl e => inl e
          | inr solutions => inr (format_step_solution E solutions)
          end)
  else if PyStr.eqb eq_type MODE_DIFFERENTIATION then
    Some (CallDiff expr,
          match diff E expr with
          | inl e => inl e
          | inr derivative => inr (lit "f'(x) = " ++ to_str E derivative)
          end)
  else if PyStr.eqb eq_type MODE_INTEGRATION then
    Some (CallIntegrate expr,
          match integrate E expr with
          | inl e => inl e
          | inr integral =>
              inr (integral_sign ++ lit "f(x) dx = " ++ to_str E integral
                                 ++ lit " + C")
          end)
  else None.

(** What the loop of [format_step_solution] appends for the [i]-th root. *)
Definition solution_item (p : nat * Expr E) : str :=
  lit "x" ++ of_nat (fst p + 1) ++ lit " = " ++ to_str E (snd p) ++ lit "     ".

End Observations.

Arguments render_events {E}.
Arguments plot_try {E} expr.
Arguments plot_events {E} expr.
Arguments plot_propagates {E} expr.
Arguments plot_type_error {E} expr.
Arguments solve_step {E} eq_type expr.

(** ** A miniature engine

    A table-driven stand-in for SymPy, NumPy and Matplotlib on the handful
    of inputs the examples use.  Expressions are kept in printed form. *)

Module Mini.

Local Open Scope string_scope.

Definition key_eqb (a : string) (b : str) : bool := PyStr.eqb (lit a) b.

Fixpoint assoc {A} (tbl : list (string * A)) (k : str) : option A :=
  match tbl with
  | [] => None
  | (k', v) :: rest => if key_eqb k' k then Some v else assoc rest k
  end.

Definition error (c : exn_class) (msg : string) : exn := Exn c (lit msg).

Definition or_raise {A} (msg : string) (o : option A) : exn + A :=
  match o with
  | Some a => inr a
  | None => inl (error OtherException msg)
  end.

(** Parsing: a bare [=] is a syntax error; known texts normalise; the
    parser evaluates the text, so a call of [sys.exit] leaves with
    [SystemExit]. *)
Definition sympify_tbl (s : str) : exn + str :=
  if contains 61 s then inl (error OtherException "could not parse")
  else if key_eqb "__import__('sys').exit(1)" s
  then inl (error BaseExceptionOnly "1")
  else or_raise "could not parse"
    (assoc [ ("x**2 - 4", lit "x**2 - 4"); ("x**2", lit "x**2");
             ("2*x", lit "2*x"); ("5", lit "5"); ("y", lit "y");
             ("erf(x)", lit "erf(x)");
             ("x**2, y", lit "(x**2, y)"); ("(x, y)", lit "(x, y)");
             ("x + y - 5, x - y - 1", lit "(x + y - 5, x - y - 1)");
             ("x + y - 1, x + y - 2", lit "(x + y - 1, x + y - 2)");
             ("x + y - 5", lit "x + y - 5"); ("x - y - 1", lit "x - y - 1");
             ("x + y - 1", lit "x + y - 1"); ("x + y - 2", lit "x + y - 2");
             ("(x + y ) - ( 5)", lit "x + y - 5");
             ("(x - y ) - ( 1)", lit "x - y - 1") ] s).

Definition solve_tbl (e : str) : exn + list str :=
  or_raise "cannot solve"
    (assoc [ ("x**2 - 4", [lit "-2"; lit "2"]); ("5", []) ] e).

Definition diff_tbl (e : str) : exn + str :=
  or_raise "cannot differentiate"
    (assoc [ ("x**2", lit "2*x"); ("5", lit "0"); ("2*x", lit "2");
             ("erf(x)", lit "2*exp(-x**2)/sqrt(pi)") ] e).

Definition integrate_tbl (e : str) : exn + str :=
  or_raise "cannot integrate"
    (assoc [ ("2*x", lit "x**2"); ("5", lit "5*x") ] e).

Definition free_symbols_tbl (e : str) : exn + list str :=
  or_raise "no attribute free_symbols"
    (assoc [ ("x**2", [lit "x"]); ("y", [lit "y"]);
             ("x + y - 5", [lit "y"; lit "x"]);
             ("x - y - 1", [lit "x"; lit "y"]);
             ("x + y - 1", [lit "y"; lit "x"]);
             ("x + y - 2", [lit "x"; lit "y"]) ] e).

Definition linsolve_tbl (equations : list str) (variables : list str)
  : exn + list (list str) :=
  if list_eq_dec (list_eq_dec N.eq_dec) equations
       [lit "x + y - 5"; lit "x - y - 1"]
  then inr [[lit "3"; lit "2"]]
  else if list_eq_dec (list_eq_dec N.eq_dec) equations
       [lit "x + y - 1"; lit "x + y - 2"]
  then inr []
  else inl (error OtherException "nonlinear term: x**2").

Definition evalf_tbl (e : str) : exn + str :=
  or_raise "cannot evaluate"
    (assoc [ ("3", lit "3.0"); ("2", lit "2.0") ] e).

(** The lambdified function: arrays for [x**2], [x**2 - 4] and [2*x], a
    scalar for the constant [5], a [TypeError] for [erf(x)], which the
    numpy printer sends to a scalar-only function. *)
Definition lambdify_tbl (e : str) : exn + (list Q -> exn + list Q) :=
  or_raise "cannot lambdify"
    (assoc [ ("x**2", fun xs => inr (map (fun x => x * x) xs));
             ("x**2 - 4", fun xs => inr (map (fun x => x * x - 4) xs));
             ("2*x", fun xs => inr (map (fun x => 2 * x) xs));
             ("5", fun _ => inr [5]);
             ("erf(x)",
              fun _ => inl (error TypeError
                "only length-1 arrays can be converted to Python scalars"))
           ] e).

(** Plotting needs as many ordinates as abscissas. *)
Definition ax_plot_tbl (xs ys : list Q) (label : str) : exn + unit :=
  if (length xs =? length ys)%nat then inr tt
  else inl (error OtherException
              "x and y must have same first dimension").

Definition engine : Engine :=
  {| Expr := str; Samples := list Q;
     sympify := sympify_tbl; solve := solve_tbl;
     diff := diff_tbl; integrate := integrate_tbl;
     free_symbols := free_symbols_tbl;
     linsolve := linsolve_tbl; evalf := evalf_tbl;
     to_str := fun e => e;
     lambdify := lambdify_tbl; ax_plot := ax_plot_tbl;
     unpack_msg := fun _ => lit "too many values to unpack (expected 2)" |}.

(** The window after the user picked a mode and typed a text. *)
Definition window (eq_type : str) (input : string) : Gui engine :=
  {| equation_type_combo := eq_type; equation_input := lit input;
     solution_output := []; trace := [] |}.

(** The text shown after a click on Solve. *)
Definition shown (eq_type : str) (input : string) : str :=
  solution_output (snd (solve_equation (window eq_type input))).

End Mini.

(** ** The dropdown and further vocabulary *)

(** [self.equation_type_combo.addItems([...])] in [__init__]. *)
Definition equation_type_items : list str :=
  [lit "Algebraic Equation"; lit "Differentiation"; lit "Integration";
   lit "System of Equations"].

(** Whitespace only (possibly empty). *)
Definition blank (s : str) : bool := forallb isspace s.

(** [s.count(c)] for a one-character [c]. *)
Definition count (c : N) (s : str) : nat := count_occ N.eq_dec s c.


(** The outcome of [m] does not depend on the window it starts from. *)
Definition blind {E : Engine} {A : Type} (m : M E A) : Prop :=
  forall g g', fst (m g) = fst (m g').

(** * Properties *)

(** ** Strings *)

Example split_commas :
  split 44%N (lit "a, b,c") = [lit "a"; lit " b"; lit "c"].
Proof. reflexivity. Qed.

Example strip_blanks : strip (lit "  x + 1 ") = lit "x + 1".
Proof. reflexivity. Qed.

Example of_nat_12 : of_nat 12 = lit "12".
Proof. reflexivity. Qed.

Lemma eqb_eq (a b : str) : PyStr.eqb a b = true <-> a = b.
Proof.
  unfold PyStr.eqb. destruct (list_eq_dec N.eq_dec a b); split; congruence.
Qed.

Lemma lstrip_blank (s : str) : forallb isspace s = true -> lstrip s = [].
Proof.
  induction s as [|c s IH]; simpl; [reflexivity|].
  intros H. apply andb_prop in H. destruct H as [Hc Hs].
  rewrite Hc. now apply IH.
Qed.

(** Stripping a text made of whitespace only leaves the empty string. *)
Lemma strip_blank (s : str) : forallb isspace s = true -> strip s = [].
Proof.
  intros H. unfold strip. now rewrite (lstrip_blank s H).
Qed.

(** ** Sorting by name *)

Lemma leb_total (a : str) : forall b, PyStr.leb a b = true \/ PyStr.leb b a = true.
Proof.
  induction a as [|x a IH]; intros [|y b]; simpl; auto.
  destruct (N.ltb_spec x y) as [Hlt|Hge].
  - now left.
  - destruct (N.eqb_spec x y) as [->|Hne].
    + rewrite N.ltb_irrefl, N.eqb_refl. apply IH.
    + right. assert (Hyx : (y <? x)%N = true) by (apply N.ltb_lt; lia).
      now rewrite Hyx.
Qed.

Lemma insert_by_name_perm (v : str) (l : list str) :
  Permutation (v :: l) (insert_by_name v l).
Proof.
  induction l as [|h t IH]; simpl; [reflexivity|].
  destruct (PyStr.leb v h); [reflexivity|].
  rewrite perm_swap. now constructor.
Qed.

(** The sorted list holds exactly the collected names. *)
Lemma sorted_same_names (variables : list str) :
  Permutation variables (sorted variables).
Proof.
  induction variables as [|v l IH]; simpl; [constructor|].
  rewrite <- insert_by_name_perm. now constructor.
Qed.

Lemma insert_by_name_sorted (v : str) (l : list str) :
  Sorted (fun a b => PyStr.leb a b = true) l ->
  Sorted (fun a b => PyStr.leb a b = true) (insert_by_name v l).
Proof.
  induction l as [|h t IH]; intros Hs; simpl.
  - repeat constructor.
  - destruct (PyStr.leb v h) eqn:Hvh.
    + constructor; [exact Hs|now constructor].
    + inversion Hs as [|? ? Ht Hhd]; subst.
      assert (Hhv : PyStr.leb h v = true).
      { destruct (leb_total v h) as [H|H]; congruence. }
      constructor; [now apply IH|].
      destruct t as [|h' t']; simpl; [now constructor|].
      destruct (PyStr.leb v h'); constructor; [exact Hhv|].
      now inversion Hhd.
Qed.

(** The variable list handed to [linsolve] is ordered by name. *)
Lemma sorted_ordered (variables : list str) :
  Sorted (fun a b => PyStr.leb a b = true) (sorted variables).
Proof.
  induction variables as [|v l IH]; simpl; [constructor|].
  now apply insert_by_name_sorted.
Qed.

Example sorted_names :
  sorted [lit "y"; lit "x"; lit "z"; lit "x1"]
  = [lit "x"; lit "x1"; lit "y"; lit "z"].
Proof. reflexivity. Qed.

(** ** Running the monad *)

Section Runs.

Variable E : Engine.

#[local] Opaque x_vals.

Lemma add_events_add (evs evs' : list (event E)) (g : Gui E) :
  add_events evs' (add_events evs g) = add_events (evs ++ evs') g.
Proof. unfold add_events; simpl. now rewrite app_assoc. Qed.

Lemma call_run {A} (ev : event E) (r : exn + A) (g : Gui E) :
  call ev r g = (r, add_events [ev] g).
Proof. reflexivity. Qed.

Lemma setText_run (s : str) (g : Gui E) :
  setText s g = (inr tt, with_output s g).
Proof. reflexivity. Qed.

Lemma bind_run {A B} (m : M E A) (k : A -> M E B) (g : Gui E) :
  bind m k g = match m g with
               | (inl e, g') => (inl e, g')
               | (inr a, g') => k a g'
               end.
Proof. reflexivity. Qed.

(** [plot_graph], case by case. *)
Lemma plot_graph_run (expr : Expr E) (g : Gui E) :
  plot_graph expr g =
  match plot_try expr with
  | (inr _, evs) => (inr tt, add_events (AxClear :: evs ++ render_events) g)
  | (inl e, evs) =>
      match exn_type e with
      | TypeError =>
          (inr tt, with_output PLOT_ERROR (add_events (AxClear :: evs) g))
      | OtherException | BaseExceptionOnly =>
          (inl e, add_events (AxClear :: evs) g)
      end
  end.
Proof.
  unfold plot_graph, plot_try, emit, try_except_TypeError, bind, call, ret,
    setText, log, add_events, with_output, render_events.
  destruct (lambdify E expr) as [e|f]; simpl.
  - destruct (exn_type e); simpl; now rewrite <- !app_assoc.
  - destruct (f x_vals) as [e|y]; simpl.
    + destruct (exn_type e); simpl; now rewrite <- !app_assoc.
    + destruct (ax_plot E x_vals y (to_str E expr)) as [e|[]]; simpl.
      * destruct (exn_type e); simpl; now rewrite <- !app_assoc.
      * now rewrite <- !app_assoc.
Qed.

Lemma plot_graph_trace (expr : Expr E) (g : Gui E) :
  trace (snd (plot_graph expr g)) = trace g ++ plot_events expr.
Proof.
  rewrite plot_graph_run. unfold plot_events.
  destruct (plot_try expr) as [[e|u] evs]; simpl.
  - destruct (exn_type e); simpl; now rewrite app_nil_r.
  - reflexivity.
Qed.

(** Plotting starts by clearing the axes and lambdifying the expression
    it was given. *)
Lemma plot_events_head (expr : Expr E) :
  exists more, plot_events expr = AxClear :: CallLambdify expr :: more.
Proof.
  unfold plot_events, plot_try.
  destruct (lambdify E expr) as [e|f]; [simpl; eauto|].
  destruct (f x_vals) as [e|y]; simpl; eauto.
Qed.

Lemma plot_type_error_events (expr : Expr E) (e : exn) :
  plot_type_error expr = Some e ->
  plot_propagates expr = None
  /\ plot_events expr = AxClear :: snd (plot_try expr)
  /\ ~ In CanvasDraw (plot_events expr).
Proof.
  unfold plot_type_error, plot_propagates, plot_events, plot_try.
  destruct (lambdify E expr) as [e0|f]; simpl.
  - destruct (exn_type e0); try discriminate. intros _.
    repeat split. intros [H|[H|[]]]; discriminate H.
  - destruct (f x_vals) as [e0|y]; simpl.
    + destruct (exn_type e0); try discriminate. intros _.
      repeat split. intros [H|[H|[H|[]]]]; discriminate H.
    + destruct (ax_plot E x_vals y (to_str E expr)) as [e0|u]; simpl;
        [|discriminate].
      destruct (exn_type e0); try discriminate. intros _.
      repeat split. intros [H|[H|[H|[H|[]]]]]; discriminate H.
Qed.

Lemma dispatch_single (eq_type equation_str : str) (expr : Expr E)
      (ev : event E) (r : exn + str) (g : Gui E) :
  solve_step eq_type expr = Some (ev, r) ->
  dispatch eq_type equation_str expr g
  = match r with
    | inl e => (inl e, add_events [ev] g)
    | inr formatted =>
        match plot_graph expr (add_events [ev] g) with
        | (inl e, g') => (inl e, g')
        | (inr _, g') => (inr formatted, g')
        end
    end.
Proof.
  unfold solve_step, dispatch.
  destruct (PyStr.eqb eq_type MODE_ALGEBRAIC);
    [|destruct (PyStr.eqb eq_type MODE_DIFFERENTIATION);
      [|destruct (PyStr.eqb eq_type MODE_INTEGRATION); [|discriminate]]];
    intros H; injection H as <- <-; rewrite bind_run, call_run.
  - destruct (solve E expr); [reflexivity|]. now rewrite bind_run.
  - destruct (diff E expr); [reflexivity|]. now rewrite bind_run.
  - destruct (integrate E expr); [reflexivity|]. now rewrite bind_run.
Qed.

Lemma dispatch_system (equation_str : str) (expr : Expr E) :
  dispatch MODE_SYSTEM equation_str expr = solve_system equation_str.
Proof. reflexivity. Qed.

Lemma solve_step_algebraic (expr : Expr E) :
  solve_step MODE_ALGEBRAIC expr
  = Some (CallSolve expr,
          match solve E expr with
          | inl e => inl e
          | inr solutions => inr (format_step_solution E solutions)
          end).
Proof. reflexivity. Qed.

Lemma solve_step_differentiation (expr : Expr E) :
  solve_step MODE_DIFFERENTIATION expr
  = Some (CallDiff expr,
          match diff E expr with
          | inl e => inl e
          | inr derivative => inr (lit "f'(x) = " ++ to_str E derivative)
          end).
Proof. reflexivity. Qed.

Lemma solve_step_integration (expr : Expr E) :
  solve_step MODE_INTEGRATION expr
  = Some (CallIntegrate expr,
          match integrate E expr with
          | inl e => inl e
          | inr integral =>
              inr (integral_sign ++ lit "f(x) dx = " ++ to_str E integral
                                 ++ lit " + C")
          end).
Proof. reflexivity. Qed.

(** The handler of [solve_equation] on a non-blank text. *)
Lemma solve_equation_run (g : Gui E) (c : N) (rest : str) :
  strip (equation_input g) = c :: rest ->
  solve_equation g
  = match solve_equation_body (equation_type_combo g) (c :: rest) g with
    | (inl e, g') =>
        if is_Exception e
        then (inr tt, with_output (lit "Error: " ++ exn_str e) g')
        else (inl e, g')
    | (inr _, g') => (inr tt, g')
    end.
Proof.
  intros H. unfold solve_equation, currentText, text.
  rewrite !bind_run, H. unfold try_except.
  destruct (solve_equation_body _ _ g) as [[e|[]] g']; [|reflexivity].
  now destruct (is_Exception e).
Qed.

Lemma solve_equation_body_run (eq_type equation_str : str) (g : Gui E) :
  solve_equation_body eq_type equation_str g
  = match sympify E equation_str with
    | inl e => (inl e, add_events [CallSympify equation_str] g)
    | inr expr =>
        match dispatch eq_type equation_str expr
                       (add_events [CallSympify equation_str] g) with
        | (inl e, g') => (inl e, g')
        | (inr formatted, g') => (inr tt, with_output formatted g')
        end
    end.
Proof.
  unfold solve_equation_body. rewrite bind_run, call_run.
  destruct (sympify E equation_str) as [e|expr]; [reflexivity|].
  rewrite bind_run. now destruct (dispatch _ _ _ _) as [[e|s] g'].
Qed.


(** A text that [sympify] rejects is reported before the mode is even
    looked at: nothing but the parse is attempted. *)
Lemma whole_text_parse_error (g : Gui E) (c : N) (rest : str) (e : exn) :
  strip (equation_input g) = c :: rest ->
  sympify E (c :: rest) = inl e ->
  solve_equation g
  = if is_Exception e
    then (inr tt, with_output (lit "Error: " ++ exn_str e)
                    (add_events [CallSympify (c :: rest)] g))
    else (inl e, add_events [CallSympify (c :: rest)] g).
Proof.
  intros Hs He. rewrite (solve_equation_run g Hs), solve_equation_body_run.
  now rewrite He.
Qed.

Lemma single_step_error (g : Gui E) (c : N) (rest : str) (expr : Expr E)
      (ev : event E) (e : exn) :
  strip (equation_input g) = c :: rest ->
  sympify E (c :: rest) = inr expr ->
  solve_step (equation_type_combo g) expr = Some (ev, inl e) ->
  solve_equation g
  = if is_Exception e
    then (inr tt, with_output (lit "Error: " ++ exn_str e)
                    (add_events [CallSympify (c :: rest); ev] g))
    else (inl e, add_events [CallSympify (c :: rest); ev] g).
Proof.
  intros Hs Hp Hstep.
  rewrite (solve_equation_run g Hs), solve_equation_body_run, Hp.
  rewrite dispatch_single with (1 := Hstep). now rewrite add_events_add.
Qed.

(** A single-expression mode whose engine request succeeded. *)
Lemma single_step_done (g : Gui E) (c : N) (rest : str) (expr : Expr E)
      (ev : event E) (formatted : str) :
  strip (equation_input g) = c :: rest ->
  sympify E (c :: rest) = inr expr ->
  solve_step (equation_type_combo g) expr = Some (ev, inr formatted) ->
  solve_equation g
  = match plot_propagates expr with
    | Some e =>
        if is_Exception e
        then (inr tt,
              with_output (lit "Error: " ++ exn_str e)
                (add_events
                   (CallSympify (c :: rest) :: ev :: plot_events expr) g))
        else (inl e,
              add_events
                (CallSympify (c :: rest) :: ev :: plot_events expr) g)
    | None =>
        (inr tt,
         with_output formatted
           (add_events
              (CallSympify (c :: rest) :: ev :: plot_events expr) g))
    end.
Proof.
  intros Hs Hp Hstep.
  rewrite (solve_equation_run g Hs), solve_equation_body_run, Hp.
  rewrite dispatch_single with (1 := Hstep). rewrite plot_graph_run.
  unfold plot_propagates, plot_events, is_Exception.
  destruct (plot_try expr) as [[e|u] evs]; simpl.
  - destruct (exn_type e); simpl; unfold with_output, add_events; simpl;
      now rewrite <- !app_assoc, ?app_nil_r.
  - unfold with_output, add_events; simpl. now rewrite <- !app_assoc.
Qed.

Lemma single_step_trace (g : Gui E) (c : N) (rest : str) (expr : Expr E)
      (ev : event E) (formatted : str) :
  strip (equation_input g) = c :: rest ->
  sympify E (c :: rest) = inr expr ->
  solve_step (equation_type_combo g) expr = Some (ev, inr formatted) ->
  trace (snd (solve_equation g))
  = trace g ++ CallSympify (c :: rest) :: ev :: plot_events expr.
Proof.
  intros Hs Hp Hstep. rewrite (single_step_done g Hs Hp Hstep).
  destruct (plot_propagates expr) as [e|]; [|reflexivity].
  now destruct (is_Exception e).
Qed.

Lemma system_run (g : Gui E) (c : N) (rest : str) (expr : Expr E) :
  equation_type_combo g = MODE_SYSTEM ->
  strip (equation_input g) = c :: rest ->
  sympify E (c :: rest) = inr expr ->
  solve_equation g
  = match solve_system (c :: rest)
                       (add_events [CallSympify (c :: rest)] g) with
    | (inl e, g') =>
        if is_Exception e
        then (inr tt, with_output (lit "Error: " ++ exn_str e) g')
        else (inl e, g')
    | (inr formatted, g') => (inr tt, with_output formatted g')
    end.
Proof.
  intros Hm Hs Hp.
  rewrite (solve_equation_run g Hs), solve_equation_body_run, Hp, Hm.
  rewrite dispatch_system.
  now destruct (solve_system _ _) as [[e|s] g'].
Qed.


Lemma solve_system_passed (equation_str : str) (g g' : Gui E) (s : str) :
  solve_system_body equation_str g = (inr s, g') ->
  solve_system equation_str g = (inr s, g').
Proof. intros H. unfold solve_system, try_except. now rewrite H. Qed.


End Runs.

(** ** What a run adds to the trace *)

Section Traces.

Variable E : Engine.
Variable P : event E -> bool.

Lemma emits_ret {A} (a : A) : emits P (ret a).
Proof. intros g. exists []. simpl. now rewrite app_nil_r. Qed.

Lemma emits_raise {A} (e : exn) : emits P (raise (A:=A) e).
Proof. intros g. exists []. simpl. now rewrite app_nil_r. Qed.

Lemma emits_setText (s : str) : emits P (setText s).
Proof. intros g. exists []. simpl. now rewrite app_nil_r. Qed.

Lemma emits_call {A} (ev : event E) (r : exn + A) :
  P ev = true -> emits P (call ev r).
Proof. intros H g. exists [ev]. simpl. now rewrite H. Qed.

Lemma emits_bind {A B} (m : M E A) (k : A -> M E B) :
  emits P m -> (forall a, emits P (k a)) -> emits P (bind m k).
Proof.
  intros Hm Hk g. unfold bind.
  destruct (Hm g) as (evs & Ht & HP).
  destruct (m g) as [[e|a] g']; simpl in *.
  - now exists evs.
  - destruct (Hk a g') as (evs' & Ht' & HP').
    exists (evs ++ evs'). rewrite Ht', Ht, app_assoc, forallb_app, HP, HP'.
    now split.
Qed.

Lemma emits_try_except {A} (m : M E A) (h : exn -> M E A) :
  emits P m -> (forall e, emits P (h e)) -> emits P (try_except m h).
Proof.
  intros Hm Hh g. unfold try_except.
  destruct (Hm g) as (evs & Ht & HP).
  destruct (m g) as [[e|a] g']; simpl in *.
  - destruct (is_Exception e); [|now exists evs].
    destruct (Hh e g') as (evs' & Ht' & HP').
    exists (evs ++ evs'). rewrite Ht', Ht, app_assoc, forallb_app, HP, HP'.
    now split.
  - now exists evs.
Qed.

End Traces.

Create HintDb emits.
#[local] Hint Resolve emits_ret emits_raise emits_setText emits_call
  emits_bind emits_try_except : emits.

Section SystemMode.

Variable E : Engine.

Lemma rewrite_equation_quiet (eq : str) :
  emits (@quiet E) (rewrite_equation (E:=E) eq).
Proof.
  unfold rewrite_equation. destruct (contains 61 eq); auto with emits.
  destruct (split 61 eq) as [|a [|b [|c l]]]; auto with emits.
Qed.

Lemma parse_equations_quiet (eqs : list str) :
  forall equations variables,
    emits (@quiet E) (parse_equations (E:=E) eqs equations variables).
Proof.
  induction eqs as [|eq rest IH]; intros equations variables; simpl.
  - auto with emits.
  - apply emits_bind; [apply rewrite_equation_quiet|]. intros eq'.
    apply emits_bind; [now apply emits_call|]. intros expr.
    apply emits_bind; [now apply emits_call|]. intros names. apply IH.
Qed.

Lemma evalf_all_quiet (sols : list (Expr E)) : emits (@quiet E) (evalf_all sols).
Proof.
  induction sols as [|sol rest IH]; simpl; [auto with emits|].
  apply emits_bind; [now apply emits_call|]. intros v.
  apply emits_bind; [exact IH|]. intros vs. auto with emits.
Qed.

(** [solve_system] never touches the canvas. *)
Lemma solve_system_quiet (equation_str : str) :
  emits (@quiet E) (solve_system (E:=E) equation_str).
Proof.
  unfold solve_system, solve_system_body.
  apply emits_try_except; [|auto with emits].
  apply emits_bind; [apply parse_equations_quiet|]. intros parsed.
  apply emits_bind; [now apply emits_call|]. intros [|first rest].
  - auto with emits.
  - apply emits_bind; [apply evalf_all_quiet|]. auto with emits.
Qed.

Lemma system_mode_quiet (g : Gui E) :
  equation_type_combo g = MODE_SYSTEM ->
  exists evs,
    trace (snd (solve_equation g)) = trace g ++ evs
    /\ forallb (@quiet E) evs = true.
Proof.
  intros Hm. unfold solve_equation, currentText, text. rewrite !bind_run.
  rewrite Hm. destruct (strip (equation_input g)) as [|c rest].
  - exists []. simpl. now rewrite app_nil_r.
  - apply emits_try_except; [|intros e; apply emits_setText].
    unfold solve_equation_body.
    apply emits_bind; [now apply emits_call|]. intros expr.
    rewrite dispatch_system.
    apply emits_bind; [apply solve_system_quiet|]. intros s.
    apply emits_setText.
Qed.

(** One round of the parsing loop. *)
Lemma parse_equations_step (eq eq' : str) (rest : list str)
      (equations : list (Expr E)) (variables names : list str)
      (expr : Expr E) (g : Gui E) :
  rewrite_equation (E:=E) (strip eq) = ret eq' ->
  sympify E eq' = inr expr ->
  free_symbols E expr = inr names ->
  parse_equations (eq :: rest) equations variables g
  = parse_equations rest (equations ++ [expr]) (set_update variables names)
      (add_events [CallSympify eq'; GetFreeSymbols expr] g).
Proof.
  intros Hr Hp Hf. simpl. rewrite Hr. unfold bind at 1. unfold ret at 1.
  rewrite bind_run, call_run, Hp, bind_run, call_run, Hf, add_events_add.
  reflexivity.
Qed.

(** When [linsolve] is reached and returns the empty set, the text is
    "No solution found.". *)
Lemma no_solution_text (equation_str : str) (g g1 : Gui E)
      (equations : list (Expr E)) (variables : list str) :
  parse_equations (split 44 equation_str) [] [] g
  = (inr (equations, variables), g1) ->
  linsolve E equations (sorted variables) = inr [] ->
  solve_system equation_str g
  = (inr (lit "No solution found."),
     add_events [CallLinsolve equations (sorted variables)] g1).
Proof.
  intros Hparse Hlin. apply solve_system_passed.
  unfold solve_system_body. rewrite bind_run, Hparse. simpl fst; simpl snd.
  rewrite bind_run, call_run, Hlin. reflexivity.
Qed.

(** The placeholder example, once [solve_system] is reached: the two
    segments are rewritten to "(x + y ) - ( 5)" and "(x - y ) - ( 1)",
    parsed, solved for the sorted names and formatted pairwise. *)
Lemma solve_system_example (g : Gui E) (e1 e2 s1 s2 v1 v2 : Expr E)
      (n1 n2 : list str) (more : list (list (Expr E))) :
  sympify E (lit "(x + y ) - ( 5)") = inr e1 ->
  sympify E (lit "(x - y ) - ( 1)") = inr e2 ->
  free_symbols E e1 = inr n1 ->
  free_symbols E e2 = inr n2 ->
  sorted (set_update (set_update [] n1) n2) = [lit "x"; lit "y"] ->
  linsolve E [e1; e2] [lit "x"; lit "y"] = inr ([s1; s2] :: more) ->
  evalf E s1 = inr v1 ->
  evalf E s2 = inr v2 ->
  to_str E v1 = lit "3.0" ->
  to_str E v2 = lit "2.0" ->
  fst (solve_system (lit "x + y = 5, x - y = 1") g)
  = inr (lit "x = 3.0     y = 2.0").
Proof.
  intros Hp1 Hp2 Hf1 Hf2 Hsort Hlin Hv1 Hv2 Ht1 Ht2.
  unfold solve_system, try_except, solve_system_body.
  rewrite bind_run.
  change (split 44 (lit "x + y = 5, x - y = 1"))
    with [lit "x + y = 5"; lit " x - y = 1"].
  rewrite (@parse_equations_step (lit "x + y = 5")
             (lit "(x + y ) - ( 5)") _ _ _ _ _ _ eq_refl Hp1 Hf1).
  rewrite (@parse_equations_step (lit " x - y = 1")
             (lit "(x - y ) - ( 1)") _ _ _ _ _ _ eq_refl Hp2 Hf2).
  simpl parse_equations. unfold ret at 1. simpl fst; simpl snd.
  rewrite Hsort, bind_run, call_run, Hlin.
  simpl evalf_all. rewrite !bind_run, !call_run, Hv1.
  rewrite !bind_run, !call_run, Hv2. unfold ret.
  simpl combine. simpl map. unfold format_pair. simpl fst; simpl snd.
  rewrite Ht1, Ht2. reflexivity.
Qed.

End SystemMode.

Example solve_system_example_mini :
  fst (solve_system (lit "x + y = 5, x - y = 1")
         (Mini.window MODE_SYSTEM EmptyString))
  = inr (lit "x = 3.0     y = 2.0").
Proof.
  apply (@solve_system_example Mini.engine _
           (lit "x + y - 5") (lit "x - y - 1") (lit "3") (lit "2")
           (lit "3.0") (lit "2.0") [lit "y"; lit "x"] [lit "x"; lit "y"] []);
    reflexivity.
Qed.

Example no_solution_mini :
  Mini.shown MODE_SYSTEM "x + y - 1, x + y - 2" = lit "No solution found.".
Proof. vm_compute. reflexivity. Qed.

Example system_without_equals_mini :
  Mini.shown MODE_SYSTEM "x + y - 5, x - y - 1" = lit "x = 3.0     y = 2.0".
Proof. vm_compute. reflexivity. Qed.

(** ** The enumeration of roots *)

Lemma format_loop_items (E : Engine) (solutions : list (Expr E)) :
  forall i formatted,
    format_loop E i solutions formatted
    = formatted
      ++ concat (map (solution_item E)
                     (combine (seq i (length solutions)) solutions)).
Proof.
  induction solutions as [|sol rest IH]; intros i formatted;
    cbn [format_loop length seq combine map concat].
  - now rewrite app_nil_r.
  - rewrite IH. unfold solution_item at 2. cbn [fst snd].
    unfold SEP. now rewrite <- !app_assoc.
Qed.

Lemma format_step_solution_items (E : Engine) (solutions : list (Expr E)) :
  format_step_solution E solutions
  = lit "Solutions:" ++ newline
    ++ concat (map (solution_item E)
                   (combine (seq 0 (length solutions)) solutions)).
Proof.
  unfold format_step_solution. rewrite format_loop_items.
  now rewrite <- app_assoc.
Qed.

(** ** The sample vector *)

Lemma linspace_length (start stop : Q) (num : nat) :
  length (linspace start stop num) = num.
Proof. unfold linspace. now rewrite length_map, length_seq. Qed.

Lemma x_vals_spacing (i : nat) :
  (i < 400)%nat ->
  nth i x_vals 0 == -10 + inject_Z (Z.of_nat i) * (20 # 399).
Proof.
  intros Hi.
  assert (Hall : forallb
                   (fun i => Qeq_bool (nth i x_vals 0)
                               (-10 + inject_Z (Z.of_nat i) * (20 # 399)))
                   (seq 0 400) = true) by (vm_compute; reflexivity).
  rewrite forallb_forall in Hall. apply Qeq_bool_iff, Hall, in_seq. lia.
Qed.

Lemma x_vals_range (x : Q) : In x x_vals -> -10 <= x /\ x <= 10.
Proof.
  intros Hin.
  assert (Hall : forallb (fun x => Qle_bool (-10) x && Qle_bool x 10) x_vals
                 = true) by (vm_compute; reflexivity).
  rewrite forallb_forall in Hall. specialize (Hall x Hin).
  apply andb_prop in Hall. destruct Hall as [Hlo Hhi].
  split; now apply Qle_bool_iff.
Qed.

(** * The dispatcher, mode by mode *)

(** ** Blank input *)

(** C5: whatever the selected mode, previous output and trace, an empty
    input makes the handler show "Please enter an equation." and return
    normally with the trace untouched: no parse, solve, diff, integrate or
    plot call is made. *)
Theorem empty_input_prompt (E : Engine) (eq_type output : str)
        (tr : list (event E)) :
  solve_equation {| equation_type_combo := eq_type; equation_input := [];
                    solution_output := output; trace := tr |}
  = (inr tt,
     {| equation_type_combo := eq_type; equation_input := [];
        solution_output := lit "Please enter an equation."; trace := tr |}).
Proof. reflexivity. Qed.

(** C10: the input is stripped before the emptiness test, so an input made
    of whitespace only is handled exactly like the empty input: the prompt
    is shown, the handler returns normally and the trace is untouched. *)
Theorem blank_input_prompt (E : Engine) (g : Gui E) :
  forallb isspace (equation_input g) = true ->
  solve_equation g
  = (inr tt, with_output (lit "Please enter an equation.") g)
  /\ solve_equation (with_input [] g)
     = (inr tt, with_output (lit "Please enter an equation.") (with_input [] g)).
Proof.
  intros H. split; [|reflexivity].
  unfold solve_equation, currentText, text. rewrite !bind_run.
  now rewrite (strip_blank _ H).
Qed.

(** Space, tab, no-break space, ideographic space, space. *)
Lemma blank_input_prompt_witness :
  forallb isspace [32; 9; 160; 12288; 32]%N = true
  /\ solution_output
       (snd (solve_equation
               (with_input [32; 9; 160; 12288; 32]%N
                  (Mini.window MODE_INTEGRATION EmptyString))))
     = lit "Please enter an equation."
  /\ trace
       (snd (solve_equation
               (with_input [32; 9; 160; 12288; 32]%N
                  (Mini.window MODE_INTEGRATION EmptyString))))
     = [].
Proof.
  split; [reflexivity|].
  destruct (@blank_input_prompt Mini.engine
              (with_input [32; 9; 160; 12288; 32]%N
                 (Mini.window MODE_INTEGRATION EmptyString)) eq_refl)
    as [H _].
  rewrite H. split; reflexivity.
Defined.

(** ** Exceptions *)




(** ** System of Equations mode *)

(** C2 (at its example): the handler parses the whole text before it looks
    at the mode.  Whenever that parse fails on "x + y = 5, x - y = 1" (a
    bare [=] is not expression syntax), the text shown is the parse error
    and the only call made is that parse: [solve_system] is not reached.
    (Were the failure not an [Exception], it would leave the handler, the
    parse still being the only call.) *)
Theorem system_example_rejected (E : Engine) (g : Gui E) (e : exn) :
  equation_type_combo g = MODE_SYSTEM ->
  equation_input g = lit "x + y = 5, x - y = 1" ->
  sympify E (lit "x + y = 5, x - y = 1") = inl e ->
  solve_equation g
  = if is_Exception e
    then (inr tt,
          with_output (lit "Error: " ++ exn_str e)
            (add_events [CallSympify (lit "x + y = 5, x - y = 1")] g))
    else (inl e, add_events [CallSympify (lit "x + y = 5, x - y = 1")] g).
Proof.
  intros _ Hin He.
  apply whole_text_parse_error with (2 := He). now rewrite Hin.
Qed.

Lemma system_example_rejected_witness :
  sympify Mini.engine (lit "x + y = 5, x - y = 1")
  = inl (Mini.error OtherException "could not parse")
  /\ Mini.shown MODE_SYSTEM "x + y = 5, x - y = 1"
     = lit "Error: could not parse"
  /\ trace (snd (solve_equation
                   (Mini.window MODE_SYSTEM "x + y = 5, x - y = 1")))
     = [CallSympify (lit "x + y = 5, x - y = 1")].
Proof.
  split; [reflexivity|]. unfold Mini.shown.
  rewrite (@system_example_rejected Mini.engine
             (Mini.window MODE_SYSTEM "x + y = 5, x - y = 1")
             (Mini.error OtherException "could not parse")
             eq_refl eq_refl eq_refl).
  split; reflexivity.
Defined.

(** C7 (at its example): the same early parse decides the inconsistent
    system "x + y = 1, x + y = 2": when it fails, the parse error is
    shown and [linsolve] is never asked.  (Were the failure not an
    [Exception], it would leave the handler, the parse still being the only
    call.) *)
Theorem inconsistent_example_rejected (E : Engine) (g : Gui E) (e : exn) :
  equation_type_combo g = MODE_SYSTEM ->
  equation_input g = lit "x + y = 1, x + y = 2" ->
  sympify E (lit "x + y = 1, x + y = 2") = inl e ->
  solve_equation g
  = if is_Exception e
    then (inr tt,
          with_output (lit "Error: " ++ exn_str e)
            (add_events [CallSympify (lit "x + y = 1, x + y = 2")] g))
    else (inl e, add_events [CallSympify (lit "x + y = 1, x + y = 2")] g).
Proof.
  intros _ Hin He.
  apply whole_text_parse_error with (2 := He). now rewrite Hin.
Qed.

Lemma inconsistent_example_rejected_witness :
  sympify Mini.engine (lit "x + y = 1, x + y = 2")
  = inl (Mini.error OtherException "could not parse")
  /\ Mini.shown MODE_SYSTEM "x + y = 1, x + y = 2"
     = lit "Error: could not parse"
  /\ trace (snd (solve_equation
                   (Mini.window MODE_SYSTEM "x + y = 1, x + y = 2")))
     = [CallSympify (lit "x + y = 1, x + y = 2")].
Proof.
  split; [reflexivity|]. unfold Mini.shown.
  rewrite (@inconsistent_example_rejected Mini.engine
             (Mini.window MODE_SYSTEM "x + y = 1, x + y = 2")
             (Mini.error OtherException "could not parse")
             eq_refl eq_refl eq_refl).
  split; reflexivity.
Defined.

(** ** Algebraic Equation mode *)

(** C3 (as amended): in Algebraic Equation mode, when the text parses, the
    roots are returned and plotting lets no exception through, the roots
    of the parsed expression are requested and the text shown is the
    header "Solutions:" and a line break followed, for the [i]-th root
    counted from 1, by "x<i> = <root>" and five spaces (also after the
    last root). *)
Theorem algebraic_display (E : Engine) (g : Gui E) (c : N) (rest : str)
        (expr : Expr E) (solutions : list (Expr E)) :
  equation_type_combo g = MODE_ALGEBRAIC ->
  strip (equation_input g) = c :: rest ->
  sympify E (c :: rest) = inr expr ->
  solve E expr = inr solutions ->
  plot_propagates expr = None ->
  solve_equation g
  = (inr tt,
     with_output
       (lit "Solutions:" ++ newline
        ++ concat (map (solution_item E)
                       (combine (seq 0 (length solutions)) solutions)))
       (add_events
          (CallSympify (c :: rest) :: CallSolve expr :: plot_events expr) g)).
Proof.
  intros Hm Hs Hp Hsol Hplot.
  assert (Hstep : solve_step (equation_type_combo g) expr
                  = Some (CallSolve expr,
                          inr (format_step_solution E solutions))).
  { now rewrite Hm, solve_step_algebraic, Hsol. }
  rewrite (single_step_done g Hs Hp Hstep), Hplot.
  now rewrite format_step_solution_items.
Qed.

Lemma algebraic_display_witness :
  plot_propagates (E:=Mini.engine) (lit "x**2 - 4") = None
  /\ Mini.shown MODE_ALGEBRAIC "x**2 - 4"
     = lit "Solutions:" ++ newline ++ lit "x1 = -2     x2 = 2     ".
Proof.
  split; [vm_compute; reflexivity|]. unfold Mini.shown.
  rewrite (@algebraic_display Mini.engine
             (Mini.window MODE_ALGEBRAIC "x**2 - 4") 120%N (lit "**2 - 4")
             (lit "x**2 - 4") [lit "-2"; lit "2"]
             eq_refl eq_refl eq_refl eq_refl).
  - reflexivity.
  - vm_compute; reflexivity.
Defined.

(** C3 (as stated) fails: for [x**2 - 4] with roots -2 and 2 the text shown
    opens with the header line "Solutions:" and ends with the separator, so
    it is neither "x1 = -2     x2 = 2" nor the reverse enumeration. *)
Lemma algebraic_text_has_header :
  solve Mini.engine (lit "x**2 - 4") = inr [lit "-2"; lit "2"]
  /\ Mini.shown MODE_ALGEBRAIC "x**2 - 4"
     = lit "Solutions:" ++ newline ++ lit "x1 = -2     x2 = 2     "
  /\ Mini.shown MODE_ALGEBRAIC "x**2 - 4" <> lit "x1 = -2     x2 = 2"
  /\ Mini.shown MODE_ALGEBRAIC "x**2 - 4" <> lit "x1 = 2     x2 = -2".
Proof.
  assert (H : Mini.shown MODE_ALGEBRAIC "x**2 - 4"
              = lit "Solutions:" ++ newline ++ lit "x1 = -2     x2 = 2     ")
    by (vm_compute; reflexivity).
  split; [reflexivity|]. split; [exact H|].
  rewrite H. split; intros Heq; vm_compute in Heq; discriminate Heq.
Qed.

(** ** Integration mode *)

(** C4 (as amended): in Integration mode, when the text parses, the
    integral is returned and plotting lets no exception through, the
    integral of the parsed expression is requested and the text shown is
    the integral-sign literal of the source followed by
    "f(x) dx = <integral> + C". *)
Theorem integration_display (E : Engine) (g : Gui E) (c : N) (rest : str)
        (expr integral : Expr E) :
  equation_type_combo g = MODE_INTEGRATION ->
  strip (equation_input g) = c :: rest ->
  sympify E (c :: rest) = inr expr ->
  integrate E expr = inr integral ->
  plot_propagates expr = None ->
  solve_equation g
  = (inr tt,
     with_output
       (integral_sign ++ lit "f(x) dx = " ++ to_str E integral ++ lit " + C")
       (add_events
          (CallSympify (c :: rest) :: CallIntegrate expr :: plot_events expr)
          g)).
Proof.
  intros Hm Hs Hp Hint Hplot.
  assert (Hstep : solve_step (equation_type_combo g) expr
                  = Some (CallIntegrate expr,
                          inr (integral_sign ++ lit "f(x) dx = "
                               ++ to_str E integral ++ lit " + C"))).
  { now rewrite Hm, solve_step_integration, Hint. }
  now rewrite (single_step_done g Hs Hp Hstep), Hplot.
Qed.

Lemma integration_display_witness :
  plot_propagates (E:=Mini.engine) (lit "2*x") = None
  /\ Mini.shown MODE_INTEGRATION "2*x"
     = integral_sign ++ lit "f(x) dx = x**2 + C".
Proof.
  split; [vm_compute; reflexivity|]. unfold Mini.shown.
  rewrite (@integration_display Mini.engine
             (Mini.window MODE_INTEGRATION "2*x") 50%N (lit "*x")
             (lit "2*x") (lit "x**2") eq_refl eq_refl eq_refl eq_refl).
  - reflexivity.
  - vm_compute; reflexivity.
Defined.

(** C4 (as stated) fails twice.  The text for [2*x] does not open with
    U+222B: the source file holds the three code points U+00E2 U+02C6
    U+00AB there.  And a parsable input need not reach that text: for the
    constant [5] the lambdified function returns a scalar, plotting raises,
    and the text shown is the error. *)
Lemma integration_text_differs :
  Mini.shown MODE_INTEGRATION "2*x"
  = [226; 710; 171]%N ++ lit "f(x) dx = x**2 + C"
  /\ Mini.shown MODE_INTEGRATION "2*x"
     <> unicode_integral ++ lit "f(x) dx = x**2 + C"
  /\ sympify Mini.engine (lit "5") = inr (lit "5")
  /\ integrate Mini.engine (lit "5") = inr (lit "5*x")
  /\ Mini.shown MODE_INTEGRATION "5"
     = lit "Error: x and y must have same first dimension".
Proof.
  assert (H : Mini.shown MODE_INTEGRATION "2*x"
              = [226; 710; 171]%N ++ lit "f(x) dx = x**2 + C")
    by (vm_compute; reflexivity).
  split; [exact H|]. split.
  - rewrite H. intros Heq; vm_compute in Heq; discriminate Heq.
  - repeat split; vm_compute; reflexivity.
Qed.

(** ** Differentiation mode *)

(** C6 (as amended): in Differentiation mode, when the text parses, the
    derivative is returned and plotting lets no exception through, the
    derivative of the parsed expression is requested, the text shown is
    "f'(x) = <derivative>", and what is plotted is the parsed expression
    itself: the calls after the request are those of [plot_graph] on it,
    starting with its lambdification. *)
Theorem differentiation_display (E : Engine) (g : Gui E) (c : N) (rest : str)
        (expr derivative : Expr E) :
  equation_type_combo g = MODE_DIFFERENTIATION ->
  strip (equation_input g) = c :: rest ->
  sympify E (c :: rest) = inr expr ->
  diff E expr = inr derivative ->
  plot_propagates expr = None ->
  solve_equation g
  = (inr tt,
     with_output (lit "f'(x) = " ++ to_str E derivative)
       (add_events
          (CallSympify (c :: rest) :: CallDiff expr :: plot_events expr) g))
  /\ (forall g0, trace (snd (plot_graph expr g0)) = trace g0 ++ plot_events expr)
  /\ exists more, plot_events expr = AxClear :: CallLambdify expr :: more.
Proof.
  intros Hm Hs Hp Hd Hplot.
  assert (Hstep : solve_step (equation_type_combo g) expr
                  = Some (CallDiff expr,
                          inr (lit "f'(x) = " ++ to_str E derivative))).
  { now rewrite Hm, solve_step_differentiation, Hd. }
  split; [|split].
  - now rewrite (single_step_done g Hs Hp Hstep), Hplot.
  - intros g0. apply plot_graph_trace.
  - apply plot_events_head.
Qed.

Lemma differentiation_display_witness :
  plot_propagates (E:=Mini.engine) (lit "x**2") = None
  /\ Mini.shown MODE_DIFFERENTIATION "x**2" = lit "f'(x) = 2*x"
  /\ In (CallLambdify (E:=Mini.engine) (lit "x**2"))
        (trace (snd (solve_equation
                       (Mini.window MODE_DIFFERENTIATION "x**2")))).
Proof.
  split; [vm_compute; reflexivity|]. unfold Mini.shown.
  destruct (@differentiation_display Mini.engine
              (Mini.window MODE_DIFFERENTIATION "x**2") 120%N (lit "**2")
              (lit "x**2") (lit "2*x") eq_refl eq_refl eq_refl eq_refl)
    as (Hrun & _ & more & Hhead).
  - vm_compute; reflexivity.
  - rewrite Hrun, Hhead. split; [reflexivity|].
    simpl. right. right. right. left. reflexivity.
Defined.

(** C6 (as stated) fails: the constant [5] parses and its derivative is
    [0], but the lambdified constant yields a scalar, plotting raises and
    the text shown is that error instead of "f'(x) = 0". *)
Lemma differentiation_of_constant :
  sympify Mini.engine (lit "5") = inr (lit "5")
  /\ diff Mini.engine (lit "5") = inr (lit "0")
  /\ Mini.shown MODE_DIFFERENTIATION "5"
     = lit "Error: x and y must have same first dimension"
  /\ Mini.shown MODE_DIFFERENTIATION "5" <> lit "f'(x) = 0".
Proof.
  assert (H : Mini.shown MODE_DIFFERENTIATION "5"
              = lit "Error: x and y must have same first dimension")
    by (vm_compute; reflexivity).
  split; [reflexivity|]. split; [reflexivity|]. split; [exact H|].
  rewrite H. intros Heq; vm_compute in Heq; discriminate Heq.
Qed.

(** ** Plotting *)

(** C8 (on the code): when the [try] block of [plot_graph] raises a
    [TypeError], [plot_graph] writes the plotting message and returns
    without drawing the canvas; the handler then overwrites that message
    with the formatted result, which alone is what is finally shown. *)
Theorem plot_type_error_overwritten (E : Engine) (g : Gui E) (c : N)
        (rest : str) (expr : Expr E) (ev : event E) (formatted : str)
        (e : exn) :
  strip (equation_input g) = c :: rest ->
  sympify E (c :: rest) = inr expr ->
  solve_step (equation_type_combo g) expr = Some (ev, inr formatted) ->
  plot_type_error expr = Some e ->
  (forall g0,
      plot_graph expr g0
      = (inr tt, with_output PLOT_ERROR (add_events (plot_events expr) g0)))
  /\ ~ In CanvasDraw (plot_events expr)
  /\ solve_equation g
     = (inr tt,
        with_output formatted
          (add_events (CallSympify (c :: rest) :: ev :: plot_events expr) g)).
Proof.
  intros Hs Hp Hstep Hte.
  destruct (@plot_type_error_events E expr e Hte) as (Hnone & Hev & Hdraw).
  split; [|split; [exact Hdraw|]].
  - intros g0. rewrite plot_graph_run, Hev.
    unfold plot_type_error in Hte.
    destruct (plot_try expr) as [[e0|u] evs]; simpl in *; [|discriminate].
    destruct (exn_type e0); try discriminate Hte. reflexivity.
  - now rewrite (single_step_done g Hs Hp Hstep), Hnone.
Qed.

Lemma plot_type_error_overwritten_witness :
  plot_type_error (E:=Mini.engine) (lit "erf(x)")
  = Some (Mini.error TypeError
            "only length-1 arrays can be converted to Python scalars")
  /\ Mini.shown MODE_DIFFERENTIATION "erf(x)"
     = lit "f'(x) = 2*exp(-x**2)/sqrt(pi)"
  /\ Mini.shown MODE_DIFFERENTIATION "erf(x)" <> PLOT_ERROR.
Proof.
  split; [vm_compute; reflexivity|]. unfold Mini.shown.
  destruct (@plot_type_error_overwritten Mini.engine
              (Mini.window MODE_DIFFERENTIATION "erf(x)")
              101%N (lit "rf(x)") (lit "erf(x)")
              (CallDiff (E:=Mini.engine) (lit "erf(x)"))
              (lit "f'(x) = 2*exp(-x**2)/sqrt(pi)")
              (Mini.error TypeError
                 "only length-1 arrays can be converted to Python scalars")
              eq_refl eq_refl eq_refl) as (_ & _ & Hrun).
  - vm_compute; reflexivity.
  - rewrite Hrun. split; [reflexivity|].
    intros Heq; vm_compute in Heq; discriminate Heq.
Defined.

(** C9: every call of [plot_graph] works on the same sample vector: 400
    abscissas, the [i]-th being -10 + i * 20/399, so evenly spaced from -10
    to 10 and all within that interval.  Its calls are those of
    [plot_events] for the expression it was given; once that expression
    is lambdified, the resulting function is applied to exactly that
    vector, and nothing else is ever evaluated.  In the single-expression
    modes the expression plotted is the parsed input itself.  In System of
    Equations mode the handler makes no plotting call at all. *)
Theorem plot_samples (E : Engine) :
  length x_vals = 400%nat
  /\ (forall i, (i < 400)%nat ->
                nth i x_vals 0 == -10 + inject_Z (Z.of_nat i) * (20 # 399))
  /\ (forall x, In x x_vals -> -10 <= x /\ x <= 10)
  /\ (forall (expr : Expr E) (g : Gui E),
         trace (snd (plot_graph expr g)) = trace g ++ plot_events expr)
  /\ (forall (expr : Expr E) f,
         lambdify E expr = inr f ->
         In (CallLambdified expr x_vals) (plot_events expr))
  /\ (forall (expr e : Expr E) xs,
         In (CallLambdified e xs) (plot_events expr) ->
         e = expr /\ xs = x_vals)
  /\ (forall (g : Gui E) c rest expr ev formatted,
         strip (equation_input g) = c :: rest ->
         sympify E (c :: rest) = inr expr ->
         solve_step (equation_type_combo g) expr = Some (ev, inr formatted) ->
         trace (snd (solve_equation g))
         = trace g ++ CallSympify (c :: rest) :: ev :: plot_events expr)
  /\ (forall g : Gui E,
         equation_type_combo g = MODE_SYSTEM ->
         exists evs,
           trace (snd (solve_equation g)) = trace g ++ evs
           /\ forallb (@quiet E) evs = true).
Proof.
  split; [apply linspace_length|].
  split; [exact x_vals_spacing|].
  split; [exact x_vals_range|].
  split; [intros expr g; apply plot_graph_trace|].
  split; [|split; [|split; [|apply system_mode_quiet]]].
  3: { intros g c rest expr ev formatted Hs Hp Hstep.
       exact (single_step_trace g Hs Hp Hstep). }
  - intros expr f Hf. unfold plot_events, plot_try. rewrite Hf.
    destruct (f x_vals) as [e|y]; simpl; auto.
  - intros expr e xs. unfold plot_events, plot_try, render_events.
    destruct (lambdify E expr) as [e0|f].
    + simpl. intros [H|[H|[]]]; discriminate H.
    + destruct (f x_vals) as [e0|y].
      * simpl. intros [H|[H|[H|[]]]]; try discriminate H.
        injection H as <- <-. now split.
      * destruct (ax_plot E x_vals y (to_str E expr)) as [e0|u]; simpl;
          intros H;
          repeat (destruct H as [H|H]; [try discriminate H|]);
          try contradiction;
          injection H as <- <-; now split.
Qed.

Lemma plot_samples_witness :
  In (CallLambdified (E:=Mini.engine) (lit "x**2") x_vals)
     (plot_events (E:=Mini.engine) (lit "x**2"))
  /\ exists evs,
       trace (snd (solve_equation
                     (Mini.window MODE_SYSTEM "x + y - 5, x - y - 1")))
       = [] ++ evs
       /\ forallb (@quiet Mini.engine) evs = true.
Proof.
  destruct (plot_samples Mini.engine)
    as (_ & _ & _ & _ & Hin & _ & _ & Hsys).
  split.
  - apply (Hin (lit "x**2")
               (fun xs => inr (map (fun x => x * x) xs))).
    reflexivity.
  - exact (Hsys (Mini.window MODE_SYSTEM "x + y - 5, x - y - 1") eq_refl).
Defined.

(** * Further properties *)

(** ** What [strip] removes *)

Lemma blank_rev (ws : str) : blank ws = true -> blank (rev ws) = true.
Proof.
  unfold blank. rewrite !forallb_forall. intros H c Hc.
  apply H. now apply in_rev.
Qed.

Lemma lstrip_spec (s : str) :
  exists ws,
    s = ws ++ lstrip s /\ blank ws = true
    /\ match lstrip s with
       | [] => True
       | c :: _ => isspace c = false
       end.
Proof.
  induction s as [|c s IH]; simpl.
  - exists []. repeat split.
  - destruct (isspace c) eqn:Hc.
    + destruct IH as (ws & Heq & Hws & Hhd).
      exists (c :: ws). simpl. rewrite Hc, Hws. rewrite <- Heq.
      repeat split. exact Hhd.
    + exists []. repeat split. exact Hc.
Qed.

Lemma rstrip_spec (t : str) :
  exists ws,
    t = rstrip t ++ ws /\ blank ws = true
    /\ forall d, rstrip t <> [] -> isspace (last (rstrip t) d) = false.
Proof.
  unfold rstrip. destruct (lstrip_spec (rev t)) as (ws & Heq & Hws & Hhd).
  exists (rev ws). split; [|split].
  - rewrite <- rev_app_distr, <- Heq. now rewrite rev_involutive.
  - now apply blank_rev.
  - intros d Hne. destruct (lstrip (rev t)) as [|c u].
    + now elim Hne.
    + simpl. now rewrite last_last.
Qed.

(** [strip] removes a run of whitespace at each end and nothing else; what
    is left, if anything, starts and ends with a non-whitespace character. *)
Lemma strip_spec (s : str) :
  exists ws1 ws2,
    s = ws1 ++ strip s ++ ws2
    /\ blank ws1 = true /\ blank ws2 = true
    /\ match strip s with
       | [] => True
       | c :: rest => isspace c = false /\ isspace (last rest c) = false
       end.
Proof.
  unfold strip.
  destruct (lstrip_spec s) as (ws1 & Heq1 & Hws1 & Hhd).
  destruct (rstrip_spec (lstrip s)) as (ws2 & Heq2 & Hws2 & Hlast).
  exists ws1, ws2. split; [|split; [exact Hws1|split; [exact Hws2|]]].
  - now rewrite <- Heq2.
  - destruct (rstrip (lstrip s)) as [|c rest] eqn:Hr; [exact I|].
    split.
    + rewrite Heq2 in Hhd. exact Hhd.
    + specialize (Hlast c). simpl in Hlast.
      destruct rest as [|c' rest']; apply Hlast; discriminate.
Qed.

Example strip_inner_blanks_kept :
  strip (lit "  x + y = 5 ,  x ") = lit "x + y = 5 ,  x".
Proof. reflexivity. Qed.

(** ** The trace only grows *)

Lemma emits_weaken (E : Engine) (P Q : event E -> bool) {A} (m : M E A) :
  (forall ev, P ev = true -> Q ev = true) -> emits P m -> emits Q m.
Proof.
  intros HPQ Hm g. destruct (Hm g) as (evs & Ht & HP).
  exists evs. split; [exact Ht|].
  rewrite forallb_forall in *. auto.
Qed.

Lemma plot_graph_appends (E : Engine) (expr : Expr E) :
  emits (fun _ => true) (plot_graph expr).
Proof.
  intros g. exists (plot_events expr). split; [apply plot_graph_trace|].
  now apply forallb_forall.
Qed.

Lemma dispatch_appends (E : Engine) (eq_type equation_str : str)
      (expr : Expr E) :
  emits (fun _ => true) (dispatch eq_type equation_str expr).
Proof.
  unfold dispatch.
  destruct (PyStr.eqb eq_type MODE_ALGEBRAIC);
    [|destruct (PyStr.eqb eq_type MODE_DIFFERENTIATION);
      [|destruct (PyStr.eqb eq_type MODE_INTEGRATION);
        [|destruct (PyStr.eqb eq_type MODE_SYSTEM)]]].
  1-3: apply emits_bind; [now apply emits_call|]; intros r;
       apply emits_bind; [apply plot_graph_appends|]; intros _;
       apply emits_ret.
  - apply emits_weaken with (P := @quiet E); [reflexivity|].
    apply solve_system_quiet.
  - apply emits_ret.
Qed.

(** X1: the text handed to the parser is the input without its
    surrounding whitespace.  The input always splits as whitespace, the
    stripped text, whitespace; if the stripped text is empty the prompt is
    shown, otherwise it starts and ends with a non-whitespace character
    and parsing it as a whole is the first outside call of the click,
    whatever the mode. *)
Theorem input_is_trimmed (E : Engine) (g : Gui E) :
  exists ws1 ws2,
    equation_input g = ws1 ++ strip (equation_input g) ++ ws2
    /\ blank ws1 = true /\ blank ws2 = true
    /\ match strip (equation_input g) with
       | [] => solve_equation g = (inr tt, with_output PROMPT g)
       | c :: rest =>
           isspace c = false /\ isspace (last rest c) = false
           /\ exists evs,
               trace (snd (solve_equation g))
               = trace g ++ CallSympify (c :: rest) :: evs
       end.
Proof.
  destruct (strip_spec (equation_input g)) as (ws1 & ws2 & Heq & H1 & H2 & Hends).
  exists ws1, ws2. split; [exact Heq|split; [exact H1|split; [exact H2|]]].
  destruct (strip (equation_input g)) as [|c rest] eqn:Hs.
  - unfold solve_equation, currentText, text. rewrite !bind_run.
    now rewrite Hs.
  - destruct Hends as [Hc Hl]. split; [exact Hc|split; [exact Hl|]].
    rewrite (solve_equation_run g Hs), solve_equation_body_run.
    destruct (sympify E (c :: rest)) as [e|expr].
    + exists []. now destruct (is_Exception e).
    + destruct (dispatch_appends (equation_type_combo g) (c :: rest) expr
                  (add_events [CallSympify (c :: rest)] g))
        as (evs & Ht & _).
      exists evs.
      destruct (dispatch _ _ _ _) as [[e|s] g']; simpl in *;
        [destruct (is_Exception e); simpl|];
        rewrite Ht; now rewrite <- app_assoc.
Qed.

(** ** What a click leaves alone *)

Section Frames.

Variable E : Engine.
Variable X : Type.
Variable f : Gui E -> X.
Hypothesis f_log : forall ev g, f (log ev g) = f g.











Hypothesis f_setText : forall s g, f (with_output s g) = f g.





End Frames.




(** ** Modes outside the dropdown *)

Lemma not_item_no_branch (eq_type : str) :
  ~ In eq_type equation_type_items ->
  PyStr.eqb eq_type MODE_ALGEBRAIC = false
  /\ PyStr.eqb eq_type MODE_DIFFERENTIATION = false
  /\ PyStr.eqb eq_type MODE_INTEGRATION = false
  /\ PyStr.eqb eq_type MODE_SYSTEM = false.
Proof.
  intros Hn.
  repeat split;
    match goal with
    | |- PyStr.eqb ?a ?b = false =>
        destruct (PyStr.eqb a b) eqn:Heq; [|reflexivity];
        apply eqb_eq in Heq; exfalso; apply Hn; rewrite Heq;
        unfold equation_type_items; simpl; tauto
    end.
Qed.

Lemma item_iff_branch (eq_type : str) :
  In eq_type equation_type_items
  <-> PyStr.eqb eq_type MODE_ALGEBRAIC
      || PyStr.eqb eq_type MODE_DIFFERENTIATION
      || PyStr.eqb eq_type MODE_INTEGRATION
      || PyStr.eqb eq_type MODE_SYSTEM = true.
Proof.
  split.
  - intros [<-|[<-|[<-|[<-|[]]]]]; reflexivity.
  - intros H. destruct (in_dec (list_eq_dec N.eq_dec) eq_type
                                equation_type_items) as [Hin|Hn];
      [exact Hin|].
    destruct (not_item_no_branch Hn) as (Ha & Hd & Hi & Hsys).
    rewrite Ha, Hd, Hi, Hsys in H. discriminate H.
Qed.

(** X4: the four branches of the handler are exactly the four entries the
    constructor puts in the dropdown: a mode text passes one of the four
    tests if and only if it is an entry.  A mode text that is not an entry
    reaches the final [else]: when the text parses, "Invalid selection."
    is shown and the parse is the only outside call. *)
Theorem unknown_mode_invalid_selection (E : Engine) :
  (forall eq_type,
      In eq_type equation_type_items
      <-> PyStr.eqb eq_type MODE_ALGEBRAIC
          || PyStr.eqb eq_type MODE_DIFFERENTIATION
          || PyStr.eqb eq_type MODE_INTEGRATION
          || PyStr.eqb eq_type MODE_SYSTEM = true)
  /\ forall (g : Gui E) (c : N) (rest : str) (expr : Expr E),
       ~ In (equation_type_combo g) equation_type_items ->
       strip (equation_input g) = c :: rest ->
       sympify E (c :: rest) = inr expr ->
       solve_equation g
       = (inr tt,
          with_output (lit "Invalid selection.")
            (add_events [CallSympify (c :: rest)] g)).
Proof.
  split; [exact item_iff_branch|].
  intros g c rest expr Hn Hs Hp.
  destruct (not_item_no_branch Hn) as (Ha & Hd & Hi & Hsys).
  rewrite (solve_equation_run g Hs), solve_equation_body_run, Hp.
  unfold dispatch. now rewrite Ha, Hd, Hi, Hsys.
Qed.

Lemma unknown_mode_invalid_selection_witness :
  ~ In (lit "Matrix") equation_type_items
  /\ Mini.shown (lit "Matrix") "x**2" = lit "Invalid selection."
  /\ trace (snd (solve_equation (Mini.window (lit "Matrix") "x**2")))
     = [CallSympify (lit "x**2")].
Proof.
  assert (Hn : ~ In (lit "Matrix") equation_type_items).
  { intros [H|[H|[H|[H|[]]]]]; vm_compute in H; discriminate H. }
  split; [exact Hn|]. unfold Mini.shown.
  destruct (unknown_mode_invalid_selection Mini.engine) as [_ H].
  rewrite (H (Mini.window (lit "Matrix") "x**2") 120%N (lit "**2")
             (lit "x**2") Hn eq_refl eq_refl).
  split; reflexivity.
Defined.

(** ** Failures before the plot *)

(** X5: when the parse of the whole text fails, or the solve, diff or
    integrate request of the selected mode fails, nothing is plotted: the
    axes are not even cleared.  If what was raised is an [Exception], the
    handler returns normally and shows "Error: <message>"; otherwise it
    leaves the handler and the output text is untouched. *)
Theorem failed_request_skips_plot (E : Engine) (g : Gui E) (c : N)
        (rest : str) (e : exn) :
  strip (equation_input g) = c :: rest ->
  sympify E (c :: rest) = inl e
  \/ (exists expr,
         sympify E (c :: rest) = inr expr
         /\ ((equation_type_combo g = MODE_ALGEBRAIC /\ solve E expr = inl e)
             \/ (equation_type_combo g = MODE_DIFFERENTIATION
                 /\ diff E expr = inl e)
             \/ (equation_type_combo g = MODE_INTEGRATION
                 /\ integrate E expr = inl e))) ->
  (if is_Exception e
   then fst (solve_equation g) = inr tt
        /\ solution_output (snd (solve_equation g))
           = lit "Error: " ++ exn_str e
   else fst (solve_equation g) = inl e
        /\ solution_output (snd (solve_equation g)) = solution_output g)
  /\ exists evs,
       trace (snd (solve_equation g)) = trace g ++ evs
       /\ forallb (@quiet E) evs = true.
Proof.
  intros Hs [He|(expr & Hp & Hmode)].
  - rewrite (whole_text_parse_error g Hs He).
    destruct (is_Exception e); (split; [now split|]);
      exists [CallSympify (c :: rest)]; now split.
  - assert (Hstep : exists ev,
               solve_step (equation_type_combo g) expr = Some (ev, inl e)
               /\ quiet ev = true).
    { destruct Hmode as [[-> H]|[[-> H]|[-> H]]].
      - rewrite solve_step_algebraic, H. eauto.
      - rewrite solve_step_differentiation, H. eauto.
      - rewrite solve_step_integration, H. eauto. }
    destruct Hstep as (ev & Hstep & Hq).
    rewrite (single_step_error g Hs Hp Hstep).
    destruct (is_Exception e); (split; [now split|]);
      exists [CallSympify (c :: rest); ev]; simpl; rewrite Hq; now split.
Qed.

Lemma failed_request_skips_plot_witness :
  diff Mini.engine (lit "x**2 - 4")
  = inl (Mini.error OtherException "cannot differentiate")
  /\ Mini.shown MODE_DIFFERENTIATION "x**2 - 4"
     = lit "Error: cannot differentiate".
Proof.
  split; [reflexivity|]. unfold Mini.shown.
  destruct (@failed_request_skips_plot Mini.engine
              (Mini.window MODE_DIFFERENTIATION "x**2 - 4") 120%N
              (lit "**2 - 4")
              (Mini.error OtherException "cannot differentiate") eq_refl)
    as [[_ H] _].
  - right. exists (lit "x**2 - 4"). split; [reflexivity|].
    right. left. split; reflexivity.
  - exact H.
Defined.

(** ** [plot_graph]: when the canvas is drawn *)

(** X6: [plot_graph] redraws the canvas exactly when lambdifying the
    expression, evaluating it on the sample vector and plotting the
    samples all succeed; it then makes its eleven calls in source order
    and leaves the output text alone. *)
Theorem plot_graph_draws_iff (E : Engine) (expr : Expr E) (g : Gui E) :
  (exists evs,
      trace (snd (plot_graph expr g)) = trace g ++ evs
      /\ (In CanvasDraw evs
          <-> exists f y,
                lambdify E expr = inr f /\ f x_vals = inr y
                /\ ax_plot E x_vals y (to_str E expr) = inr tt))
  /\ forall f y,
       lambdify E expr = inr f ->
       f x_vals = inr y ->
       ax_plot E x_vals y (to_str E expr) = inr tt ->
       plot_graph expr g
       = (inr tt,
          add_events
            [AxClear; CallLambdify expr; CallLambdified expr x_vals;
             AxPlot x_vals y (to_str E expr);
             AxHLine; AxVLine; SetXLabel; SetYLabel; AxLegend; AxGrid;
             CanvasDraw] g).
Proof.
  split.
  - exists (plot_events expr). split; [apply plot_graph_trace|].
    unfold plot_events, plot_try, render_events.
    destruct (lambdify E expr) as [e|f] eqn:Hf.
    + simpl. split.
      * intros [H|[H|[]]]; discriminate H.
      * intros (f & y & H & _). discriminate H.
    + destruct (f x_vals) as [e|y] eqn:Hy.
      * simpl. split.
        -- intros [H|[H|[H|[]]]]; discriminate H.
        -- intros (f' & y' & H & H' & _).
           injection H as <-. rewrite Hy in H'. discriminate H'.
      * destruct (ax_plot E x_vals y (to_str E expr)) as [e|[]] eqn:Hplot.
        -- simpl. split.
           ++ intros [H|[H|[H|[H|[]]]]]; discriminate H.
           ++ intros (f' & y' & H & H' & H'').
              injection H as <-. rewrite Hy in H'. injection H' as <-.
              rewrite Hplot in H''. discriminate H''.
        -- split.
           ++ intros _. exists f, y. now repeat split.
           ++ intros _. simpl. tauto.
  - intros f y Hf Hy Hp. rewrite plot_graph_run. unfold plot_try.
    now rewrite Hf, Hy, Hp.
Qed.

(** X7: an exception other than a [TypeError] raised while lambdifying,
    evaluating or plotting leaves [plot_graph]: the axes have been cleared,
    the canvas is not redrawn and the output text is untouched. *)
Theorem plot_graph_propagates (E : Engine) (expr : Expr E) (g : Gui E)
        (e : exn) :
  exn_type e <> TypeError ->
  lambdify E expr = inl e
  \/ (exists f, lambdify E expr = inr f /\ f x_vals = inl e)
  \/ (exists f y, lambdify E expr = inr f /\ f x_vals = inr y
                  /\ ax_plot E x_vals y (to_str E expr) = inl e) ->
  fst (plot_graph expr g) = inl e
  /\ solution_output (snd (plot_graph expr g)) = solution_output g
  /\ exists evs,
       trace (snd (plot_graph expr g)) = trace g ++ AxClear :: evs
       /\ ~ In CanvasDraw evs.
Proof.
  intros Hty Hcase. rewrite plot_graph_run. unfold plot_try.
  destruct Hcase as [Hf|[(f & Hf & Hy)|(f & y & Hf & Hy & Hp)]].
  - rewrite Hf. destruct (exn_type e); [now elim Hty| |]; simpl;
      repeat split; eexists; (split; [reflexivity|]);
      intros [H|[]]; discriminate H.
  - rewrite Hf, Hy. destruct (exn_type e); [now elim Hty| |]; simpl;
      repeat split; eexists; (split; [reflexivity|]);
      intros [H|[H|[]]]; discriminate H.
  - rewrite Hf, Hy, Hp. destruct (exn_type e); [now elim Hty| |]; simpl;
      repeat split; eexists; (split; [reflexivity|]);
      intros [H|[H|[H|[]]]]; discriminate H.
Qed.

Lemma plot_graph_propagates_witness :
  ax_plot Mini.engine x_vals [5] (lit "5")
  = inl (Mini.error OtherException "x and y must have same first dimension")
  /\ fst (plot_graph (E:=Mini.engine) (lit "5")
            (Mini.window MODE_DIFFERENTIATION "5"))
     = inl (Mini.error OtherException
              "x and y must have same first dimension").
Proof.
  assert (Hp : ax_plot Mini.engine x_vals [5] (lit "5")
               = inl (Mini.error OtherException
                        "x and y must have same first dimension"))
    by (vm_compute; reflexivity).
  split; [exact Hp|].
  destruct (@plot_graph_propagates Mini.engine (lit "5")
              (Mini.window MODE_DIFFERENTIATION "5")
              (Mini.error OtherException
                 "x and y must have same first dimension"))
    as [H _].
  - discriminate.
  - right. right. exists (fun _ => inr [5]), [5].
    split; [reflexivity|]. split; [reflexivity|exact Hp].
  - exact H.
Defined.

Lemma plot_graph_draws_iff_witness :
  In CanvasDraw
     (trace (snd (plot_graph (E:=Mini.engine) (lit "x**2")
                    (Mini.window MODE_DIFFERENTIATION "x**2")))).
Proof.
  destruct (@plot_graph_draws_iff Mini.engine (lit "x**2")
              (Mini.window MODE_DIFFERENTIATION "x**2")) as [_ H].
  rewrite (H (fun xs => inr (map (fun x => x * x) xs))
             (map (fun x => x * x) x_vals) eq_refl eq_refl).
  - simpl. do 10 right. left. reflexivity.
  - vm_compute. reflexivity.
Defined.

(** ** Splitting on a separator *)

Lemma split_nonempty (sep : N) (s : str) : split sep s <> [].
Proof.
  destruct s as [|c s]; simpl; [discriminate|].
  destruct (c =? sep)%N; [discriminate|].
  destruct (split sep s); discriminate.
Qed.

Lemma count_cons (sep c : N) (s : str) :
  count sep (c :: s) = if (c =? sep)%N then S (count sep s) else count sep s.
Proof.
  unfold count. simpl. destruct (N.eq_dec c sep) as [->|Hne].
  - now rewrite N.eqb_refl.
  - apply N.eqb_neq in Hne. now rewrite Hne.
Qed.

(** One more part than there are separators. *)
Lemma split_length (sep : N) (s : str) :
  length (split sep s) = S (count sep s).
Proof.
  induction s as [|c s IH]; [reflexivity|].
  rewrite count_cons. simpl. destruct (c =? sep)%N.
  - simpl. now rewrite IH.
  - destruct (split sep s) as [|p ps] eqn:Hsp.
    + now elim (split_nonempty sep s).
    + exact IH.
Qed.

(** Joining the parts with the separator gives the text back. *)
Lemma split_join (sep : N) (s : str) : join [sep] (split sep s) = s.
Proof.
  induction s as [|c s IH]; [reflexivity|].
  simpl. destruct (N.eqb_spec c sep) as [->|Hne].
  - destruct (split sep s) as [|p ps] eqn:Hsp.
    + now elim (split_nonempty sep s).
    + simpl. simpl in IH. now rewrite IH.
  - destruct (split sep s) as [|p ps] eqn:Hsp.
    + now elim (split_nonempty sep s).
    + simpl. destruct ps as [|q qs]; simpl in *; now rewrite IH.
Qed.

(** No part holds the separator. *)
Lemma split_parts (sep : N) (s : str) :
  forall p, In p (split sep s) -> ~ In sep p.
Proof.
  induction s as [|c s IH]; simpl.
  - intros p [<-|[]] [].
  - destruct (N.eqb_spec c sep) as [->|Hne].
    + intros p [<-|Hin]; [intros []|now apply IH].
    + destruct (split sep s) as [|q qs] eqn:Hsp.
      * intros p [<-|[]] [H|[]]. now apply Hne.
      * intros p [<-|Hin].
        -- intros [H|H]; [now apply Hne|].
           apply (IH q); [now left|exact H].
        -- apply IH. now right.
Qed.

Lemma contains_count (c : N) (s : str) :
  contains c s = true <-> (0 < count c s)%nat.
Proof.
  unfold contains, count. rewrite existsb_exists.
  split.
  - intros (x & Hin & Heq). apply N.eqb_eq in Heq. subst x.
    now apply (count_occ_In N.eq_dec).
  - intros Hin. exists c. split; [|apply N.eqb_refl].
    now apply (count_occ_In N.eq_dec).
Qed.

(** ** Normalising one equation *)

(** X8: a segment without "=" is parsed as it stands; a segment with
    exactly one "=" is cut at that sign into a left and a right side,
    neither holding an "=", and rewritten to "(left) - (right)" with the
    sides untouched (inner blanks included).  Nothing is recorded and the
    window is unchanged. *)
Theorem rewrite_equation_normalises (E : Engine) (eq : str) (g : Gui E) :
  (count 61 eq = 0%nat -> rewrite_equation eq g = (inr eq, g))
  /\ (count 61 eq = 1%nat ->
      exists left_ right_,
        eq = left_ ++ [61%N] ++ right_
        /\ ~ In 61%N left_ /\ ~ In 61%N right_
        /\ rewrite_equation eq g
           = (inr (lit "(" ++ left_ ++ lit ") - (" ++ right_ ++ lit ")"), g)).
Proof.
  unfold rewrite_equation. split; intros Hc.
  - destruct (contains 61 eq) eqn:Hin; [|reflexivity].
    apply contains_count in Hin. lia.
  - assert (Hin : contains 61 eq = true) by (apply contains_count; lia).
    rewrite Hin.
    pose proof (split_length 61 eq) as Hlen. rewrite Hc in Hlen.
    pose proof (split_join 61 eq) as Hjoin.
    pose proof (split_parts 61 eq) as Hparts.
    destruct (split 61 eq) as [|l [|r [|x xs]]]; try discriminate Hlen.
    exists l, r. split; [exact (eq_sym Hjoin)|].
    split; [apply Hparts; now left|].
    split; [apply Hparts; right; now left|reflexivity].
Qed.

Lemma rewrite_equation_normalises_witness :
  count 61 (lit "x + y - 5") = 0%nat
  /\ count 61 (lit "x + y = 5") = 1%nat
  /\ rewrite_equation (lit "x + y - 5") (Mini.window MODE_SYSTEM EmptyString)
     = (inr (lit "x + y - 5"), Mini.window MODE_SYSTEM EmptyString)
  /\ exists left_ right_,
       lit "x + y = 5" = left_ ++ [61%N] ++ right_
       /\ ~ In 61%N left_ /\ ~ In 61%N right_
       /\ rewrite_equation (lit "x + y = 5")
            (Mini.window MODE_SYSTEM EmptyString)
          = (inr (lit "(" ++ left_ ++ lit ") - (" ++ right_ ++ lit ")"),
             Mini.window MODE_SYSTEM EmptyString).
Proof.
  split; [reflexivity|]. split; [reflexivity|]. split.
  - exact (proj1 (@rewrite_equation_normalises Mini.engine (lit "x + y - 5")
                    (Mini.window MODE_SYSTEM EmptyString)) eq_refl).
  - exact (proj2 (@rewrite_equation_normalises Mini.engine (lit "x + y = 5")
                    (Mini.window MODE_SYSTEM EmptyString)) eq_refl).
Defined.

(** X9: a segment with two or more "=" cannot be unpacked into two sides:
    the rewriting raises before anything is parsed.  When this happens on
    the first segment, [solve_system] returns "Error solving system: "
    followed by the unpacking message and makes no outside call. *)
Theorem many_equals_rejected (E : Engine) (g : Gui E) :
  (forall eq,
      (2 <= count 61 eq)%nat ->
      rewrite_equation eq g
      = (inl (Exn OtherException (unpack_msg E (S (count 61 eq)))), g))
  /\ forall equation_str seg more,
       split 44 equation_str = seg :: more ->
       (2 <= count 61 (strip seg))%nat ->
       solve_system equation_str g
       = (inr (lit "Error solving system: "
               ++ unpack_msg E (S (count 61 (strip seg)))), g).
Proof.
  assert (Hrw : forall eq,
             (2 <= count 61 eq)%nat ->
             rewrite_equation eq g
             = (inl (Exn OtherException (unpack_msg E (S (count 61 eq)))), g)).
  { intros eq Hc. unfold rewrite_equation.
    assert (Hin : contains 61 eq = true) by (apply contains_count; lia).
    rewrite Hin. rewrite <- split_length.
    pose proof (split_length 61 eq) as Hlen.
    destruct (split 61 eq) as [|l [|r [|x xs]]]; simpl in Hlen; try lia.
    reflexivity. }
  split; [exact Hrw|].
  intros equation_str seg more Hsplit Hc.
  unfold solve_system, try_except, solve_system_body.
  rewrite bind_run, Hsplit. simpl parse_equations.
  rewrite bind_run, (Hrw _ Hc). reflexivity.
Qed.

Lemma many_equals_rejected_witness :
  (2 <= count 61 (strip (lit "a = b = c")))%nat
  /\ solve_system (lit "a = b = c, x") (Mini.window MODE_SYSTEM EmptyString)
     = (inr (lit "Error solving system: too many values to unpack (expected 2)"),
        Mini.window MODE_SYSTEM EmptyString).
Proof.
  split; [vm_compute; lia|].
  exact (proj2 (@many_equals_rejected Mini.engine
                  (Mini.window MODE_SYSTEM EmptyString))
               (lit "a = b = c, x") (lit "a = b = c") [lit " x"]
               eq_refl (le_n 2)).
Defined.

(** ** The parsing loop of [solve_system] *)

Lemma existsb_eqb_In (v : str) (acc : list str) :
  existsb (PyStr.eqb v) acc = true <-> In v acc.
Proof.
  rewrite existsb_exists. split.
  - intros (x & Hin & Heq). apply eqb_eq in Heq. now subst x.
  - intros Hin. exists v. split; [exact Hin|now apply eqb_eq].
Qed.

Lemma set_update_in (names : list str) :
  forall variables v,
    In v (set_update variables names) <-> In v variables \/ In v names.
Proof.
  unfold set_update.
  induction names as [|n names IH]; intros variables v; simpl.
  - tauto.
  - rewrite IH. destruct (existsb (PyStr.eqb n) variables) eqn:Hex.
    + apply existsb_eqb_In in Hex. split; [tauto|].
      intros [H|[<-|H]]; tauto.
    + rewrite in_app_iff. simpl. tauto.
Qed.

Lemma set_update_nodup (names : list str) :
  forall variables, NoDup variables -> NoDup (set_update variables names).
Proof.
  unfold set_update.
  induction names as [|n names IH]; intros variables Hnd; simpl.
  - exact Hnd.
  - apply IH. destruct (existsb (PyStr.eqb n) variables) eqn:Hex.
    + exact Hnd.
    + apply NoDup_app; [exact Hnd|repeat constructor; intros []|].
      intros x Hx [<-|[]].
      apply existsb_eqb_In in Hx. congruence.
Qed.

Lemma rewrite_equation_state (E : Engine) (eq : str) (g : Gui E) :
  snd (rewrite_equation eq g) = g.
Proof.
  unfold rewrite_equation. destruct (contains 61 eq); [|reflexivity].
  destruct (split 61 eq) as [|a [|b [|c l]]]; reflexivity.
Qed.

Lemma rewrite_equation_pure (E : Engine) (eq : str) (g g0 : Gui E) :
  fst (rewrite_equation eq g) = fst (rewrite_equation eq g0).
Proof.
  unfold rewrite_equation. destruct (contains 61 eq); [|reflexivity].
  destruct (split 61 eq) as [|a [|b [|c l]]]; reflexivity.
Qed.

Lemma parse_equations_inv (E : Engine) (eqs : list str) :
  forall equations variables (g g1 : Gui E) r,
    parse_equations eqs equations variables g = (inr r, g1) ->
    exists new,
      fst r = equations ++ new
      /\ Forall2
           (fun seg expr =>
              exists eq',
                (forall g0 : Gui E,
                    fst (rewrite_equation (strip seg) g0) = inr eq')
                /\ sympify E eq' = inr expr)
           eqs new
      /\ (NoDup variables -> NoDup (snd r))
      /\ forall v,
           In v (snd r)
           <-> In v variables
               \/ exists expr names,
                    In expr new /\ free_symbols E expr = inr names
                    /\ In v names.
Proof.
  induction eqs as [|eq rest IH]; intros equations variables g g1 r H.
  - injection H as <- <-. exists []. simpl. rewrite app_nil_r.
    split; [reflexivity|]. split; [constructor|]. split; [tauto|].
    intros v. split; [tauto|]. intros [H|(expr & names & [] & _)]. exact H.
  - simpl in H. rewrite bind_run in H.
    pose proof (rewrite_equation_state (strip eq) g) as Hst.
    pose proof (fun g0 => rewrite_equation_pure (strip eq) g g0) as Hpure.
    destruct (rewrite_equation (strip eq) g) as [[e|eq'] g0];
      [discriminate H|].
    simpl in Hst, Hpure. subst g0.
    rewrite bind_run, call_run in H.
    destruct (sympify E eq') as [e|expr] eqn:Hp; [discriminate H|].
    rewrite bind_run, call_run in H.
    destruct (free_symbols E expr) as [e|names] eqn:Hf; [discriminate H|].
    destruct (IH _ _ _ _ _ H) as (new & Heq & Hall & Hnd & Hin).
    exists (expr :: new). split; [|split; [|split]].
    + rewrite Heq. now rewrite <- app_assoc.
    + constructor; [|exact Hall]. exists eq'. split; [|exact Hp].
      intros g0. now rewrite <- Hpure.
    + intros Hv. apply Hnd. now apply set_update_nodup.
    + intros v. rewrite Hin, set_update_in. split.
      * intros [[Hv|Hv]|(expr' & names' & Hin' & Hf' & Hv)].
        -- now left.
        -- right. exists expr, names. repeat split; [now left|exact Hf|exact Hv].
        -- right. exists expr', names'. repeat split; [now right|exact Hf'|exact Hv].
      * intros [Hv|(expr' & names' & [<-|Hin'] & Hf' & Hv)].
        -- left. now left.
        -- left. right. congruence.
        -- right. exists expr', names'. now repeat split.
Qed.

(** X10: when the parsing loop of [solve_system] completes, it has
    produced one expression per comma-separated segment, in order, each
    being the parse of its stripped and normalised segment; and the
    variables collected are, without duplicates, exactly the names of the
    free symbols of these expressions. *)
Theorem parse_equations_collects (E : Engine) (equation_str : str)
        (g g1 : Gui E) (equations : list (Expr E)) (variables : list str) :
  parse_equations (split 44 equation_str) [] [] g
  = (inr (equations, variables), g1) ->
  length equations = S (count 44 equation_str)
  /\ Forall2
       (fun seg expr =>
          exists eq',
            (forall g0 : Gui E,
                fst (rewrite_equation (strip seg) g0) = inr eq')
            /\ sympify E eq' = inr expr)
       (split 44 equation_str) equations
  /\ NoDup variables
  /\ forall v,
       In v variables
       <-> exists expr names,
             In expr equations /\ free_symbols E expr = inr names
             /\ In v names.
Proof.
  intros H. destruct (parse_equations_inv _ _ _ _ H)
    as (new & Heq & Hall & Hnd & Hin).
  simpl in Heq, Hnd, Hin. subst new.
  split; [|split; [exact Hall|split; [apply Hnd; constructor|]]].
  - rewrite <- split_length. symmetry. exact (Forall2_length Hall).
  - intros v. rewrite Hin. split; [intros [[]|H']; exact H'|now right].
Qed.

Lemma parse_equations_collects_witness :
  fst (parse_equations (split 44 (lit "x + y = 5, x - y = 1")) [] []
         (Mini.window MODE_SYSTEM EmptyString))
  = inr ([lit "x + y - 5"; lit "x - y - 1"], [lit "y"; lit "x"])
  /\ length [lit "x + y - 5"; lit "x - y - 1"]
     = S (count 44 (lit "x + y = 5, x - y = 1"))
  /\ NoDup [lit "y"; lit "x"].
Proof.
  split; [vm_compute; reflexivity|].
  destruct (@parse_equations_collects Mini.engine
              (lit "x + y = 5, x - y = 1")
              (Mini.window MODE_SYSTEM EmptyString)
              (snd (parse_equations (split 44 (lit "x + y = 5, x - y = 1"))
                      [] [] (Mini.window MODE_SYSTEM EmptyString)))
              [lit "x + y - 5"; lit "x - y - 1"] [lit "y"; lit "x"])
    as (Hlen & _ & Hnd & _).
  - vm_compute. reflexivity.
  - split; [exact Hlen|exact Hnd].
Defined.

(** ** The call of [linsolve] and the formatting of its answer *)

Lemma parse_equations_emits (E : Engine) (P : event E -> bool)
      (eqs : list str) :
  (forall s, P (CallSympify s) = true) ->
  (forall expr, P (GetFreeSymbols expr) = true) ->
  forall equations variables,
    emits P (parse_equations eqs equations variables).
Proof.
  intros H1 H2.
  induction eqs as [|eq rest IH]; intros equations variables; simpl.
  - apply emits_ret.
  - apply emits_bind.
    { intros g. exists []. rewrite rewrite_equation_state.
      now rewrite app_nil_r. }
    intros eq'. apply emits_bind; [now apply emits_call|]. intros expr.
    apply emits_bind; [now apply emits_call|]. intros names. apply IH.
Qed.

Lemma evalf_all_run (E : Engine) (sols values : list (Expr E)) :
  Forall2 (fun sol v => evalf E sol = inr v) sols values ->
  forall g, evalf_all sols g
            = (inr values, add_events (map (@CallEvalf E) sols) g).
Proof.
  induction 1 as [|sol v sols values Hv Hall IH]; intros g; simpl.
  - unfold ret. f_equal. destruct g; unfold add_events; simpl.
    now rewrite app_nil_r.
  - rewrite bind_run, call_run, Hv, bind_run, IH, add_events_add.
    reflexivity.
Qed.

Lemma evalf_all_emits (E : Engine) (P : event E -> bool)
      (sols : list (Expr E)) :
  (forall sol, P (CallEvalf sol) = true) -> emits P (evalf_all sols).
Proof.
  intros HP. induction sols as [|sol rest IH]; simpl; [apply emits_ret|].
  apply emits_bind; [now apply emits_call|]. intros v.
  apply emits_bind; [exact IH|]. intros vs. apply emits_ret.
Qed.

Lemma sorted_nodup (variables : list str) :
  NoDup variables -> NoDup (sorted variables).
Proof.
  intros H. eapply Permutation_NoDup; [apply sorted_same_names|exact H].
Qed.

Lemma sorted_in (variables : list str) (v : str) :
  In v (sorted variables) <-> In v variables.
Proof.
  split; apply Permutation_in;
    [apply Permutation_sym|]; apply sorted_same_names.
Qed.

(** X11: when the parsing loop completes, [linsolve] is called exactly
    once, on the parsed expressions and the collected names put in
    lexicographic order: the list it receives is sorted by name, free of
    duplicates and holds the same names.  Before that call only parsing is
    recorded (parses of segments and reads of their free symbols), after
    it only numeric evaluation. *)
Theorem linsolve_gets_sorted_names (E : Engine) (equation_str : str)
        (g g1 : Gui E) (equations : list (Expr E)) (variables : list str) :
  parse_equations (split 44 equation_str) [] [] g
  = (inr (equations, variables), g1) ->
  Sorted (fun a b => PyStr.leb a b = true) (sorted variables)
  /\ NoDup (sorted variables)
  /\ (forall v, In v (sorted variables) <-> In v variables)
  /\ exists before after,
       trace (snd (solve_system equation_str g))
       = trace g ++ before
         ++ CallLinsolve equations (sorted variables) :: after
       /\ trace g1 = trace g ++ before
       /\ Forall (fun ev => (exists s, ev = CallSympify s)
                            \/ exists expr, ev = GetFreeSymbols expr)
                 before
       /\ Forall (fun ev => exists sol, ev = CallEvalf sol) after
       /\ (forall eqs vars, ~ In (CallLinsolve eqs vars) before)
       /\ (forall eqs vars, ~ In (CallLinsolve eqs vars) after).
Proof.
  intros H.
  destruct (parse_equations_inv _ _ _ _ H) as (_ & _ & _ & Hnd & _).
  split; [apply sorted_ordered|].
  split; [apply sorted_nodup, Hnd; constructor|].
  split; [apply sorted_in|].
  destruct (@parse_equations_emits E
              (fun ev => match ev with
                         | CallSympify _ | GetFreeSymbols _ => true
                         | _ => false
                         end)
              (split 44 equation_str) (fun _ => eq_refl) (fun _ => eq_refl)
              [] [] g) as (before & Hb & HPb).
  rewrite H in Hb. simpl in Hb. rewrite forallb_forall in HPb.
  assert (Hfb : Forall (fun ev => (exists s, ev = CallSympify s)
                                  \/ exists expr, ev = GetFreeSymbols expr)
                       before).
  { apply Forall_forall. intros ev Hin. specialize (HPb _ Hin).
    destruct ev; try discriminate HPb; eauto. }
  assert (Hnb : forall eqs vars, ~ In (CallLinsolve eqs vars) before).
  { intros eqs vars Hin. specialize (HPb _ Hin). discriminate HPb. }
  assert (Hnil : forall eqs vars,
             ~ In (CallLinsolve (E:=E) eqs vars) []) by (intros ? ? []).
  unfold solve_system, try_except, solve_system_body.
  rewrite bind_run, H. simpl fst; simpl snd. rewrite bind_run, call_run.
  destruct (linsolve E equations (sorted variables)) as [e|[|first more]].
  - exists before, [].
    split; [destruct (is_Exception e); simpl;
            rewrite Hb; now rewrite <- app_assoc|].
    repeat split; auto.
  - exists before, []. simpl. rewrite Hb, <- app_assoc.
    repeat split; auto.
  - rewrite bind_run.
    destruct (@evalf_all_emits E
                (fun ev => match ev with CallEvalf _ => true | _ => false end)
                first (fun _ => eq_refl)
                (add_events [CallLinsolve equations (sorted variables)] g1))
      as (after & Ha & HPa).
    rewrite forallb_forall in HPa.
    exists before, after. split; [|split; [exact Hb|split; [exact Hfb|]]].
    + destruct (evalf_all first _) as [[e|vs] g2]; simpl in *;
        [destruct (is_Exception e); simpl|];
        rewrite Ha, Hb; now rewrite <- !app_assoc.
    + split; [|split; [exact Hnb|]].
      * apply Forall_forall. intros ev Hin. specialize (HPa _ Hin).
        destruct ev; try discriminate HPa; eauto.
      * intros eqs vars Hin. specialize (HPa _ Hin). discriminate HPa.
Qed.

Lemma linsolve_gets_sorted_names_witness :
  fst (parse_equations (split 44 (lit "x + y = 5, x - y = 1")) [] []
         (Mini.window MODE_SYSTEM EmptyString))
  = inr ([lit "x + y - 5"; lit "x - y - 1"], [lit "y"; lit "x"])
  /\ sorted [lit "y"; lit "x"] = [lit "x"; lit "y"]
  /\ NoDup (sorted [lit "y"; lit "x"]).
Proof.
  split; [vm_compute; reflexivity|]. split; [reflexivity|].
  destruct (@linsolve_gets_sorted_names Mini.engine
              (lit "x + y = 5, x - y = 1")
              (Mini.window MODE_SYSTEM EmptyString)
              (snd (parse_equations (split 44 (lit "x + y = 5, x - y = 1"))
                      [] [] (Mini.window MODE_SYSTEM EmptyString)))
              [lit "x + y - 5"; lit "x - y - 1"] [lit "y"; lit "x"])
    as (_ & Hnd & _).
  - vm_compute. reflexivity.
  - exact Hnd.
Defined.

(** X12: when the parsing loop completes, [linsolve] returns at least one
    tuple and every component of the first tuple evaluates, [solve_system]
    returns the pairs "name = value" joined by five blanks, names taken in
    sorted order and paired with the values position by position; only the
    first tuple is used, and its components are evaluated in order. *)
Theorem solve_system_formats_first (E : Engine) (equation_str : str)
        (g g1 : Gui E) (equations : list (Expr E)) (variables : list str)
        (first : list (Expr E)) (more : list (list (Expr E)))
        (values : list (Expr E)) :
  parse_equations (split 44 equation_str) [] [] g
  = (inr (equations, variables), g1) ->
  linsolve E equations (sorted variables) = inr (first :: more) ->
  Forall2 (fun sol v => evalf E sol = inr v) first values ->
  solve_system equation_str g
  = (inr (join (lit "     ")
               (map (fun p => fst p ++ lit " = " ++ to_str E (snd p))
                    (combine (sorted variables) values))),
     add_events
       (CallLinsolve equations (sorted variables) :: map (@CallEvalf E) first)
       g1).
Proof.
  intros Hparse Hlin Hval. apply solve_system_passed.
  unfold solve_system_body. rewrite bind_run, Hparse. simpl fst; simpl snd.
  rewrite bind_run, call_run, Hlin, bind_run, (evalf_all_run Hval).
  now rewrite add_events_add.
Qed.

Lemma solve_system_formats_first_witness :
  linsolve Mini.engine [lit "x + y - 5"; lit "x - y - 1"] [lit "x"; lit "y"]
  = inr [[lit "3"; lit "2"]]
  /\ fst (solve_system (lit "x + y = 5, x - y = 1")
            (Mini.window MODE_SYSTEM EmptyString))
     = inr (lit "x = 3.0     y = 2.0").
Proof.
  split; [reflexivity|].
  rewrite (@solve_system_formats_first Mini.engine
             (lit "x + y = 5, x - y = 1")
             (Mini.window MODE_SYSTEM EmptyString)
             (snd (parse_equations (split 44 (lit "x + y = 5, x - y = 1"))
                     [] [] (Mini.window MODE_SYSTEM EmptyString)))
             [lit "x + y - 5"; lit "x - y - 1"] [lit "y"; lit "x"]
             [lit "3"; lit "2"] [] [lit "3.0"; lit "2.0"]).
  - reflexivity.
  - vm_compute. reflexivity.
  - reflexivity.
  - repeat constructor.
Defined.

(** X13: in System of Equations mode, when the whole text and every
    segment parse and [linsolve] returns the empty set, the text shown is
    "No solution found." and no component is evaluated: the call of
    [linsolve] is the last one. *)
Theorem no_solution_shown (E : Engine) (g g1 : Gui E) (c : N) (rest : str)
        (whole : Expr E) (equations : list (Expr E)) (variables : list str) :
  equation_type_combo g = MODE_SYSTEM ->
  strip (equation_input g) = c :: rest ->
  sympify E (c :: rest) = inr whole ->
  parse_equations (split 44 (c :: rest)) [] []
    (add_events [CallSympify (c :: rest)] g)
  = (inr (equations, variables), g1) ->
  linsolve E equations (sorted variables) = inr [] ->
  solve_equation g
  = (inr tt,
     with_output (lit "No solution found.")
       (add_events [CallLinsolve equations (sorted variables)] g1)).
Proof.
  intros Hm Hs Hp Hparse Hlin.
  rewrite (system_run g Hm Hs Hp).
  now rewrite (no_solution_text _ _ Hparse Hlin).
Qed.

Lemma no_solution_shown_witness :
  linsolve Mini.engine [lit "x + y - 1"; lit "x + y - 2"] [lit "x"; lit "y"]
  = inr []
  /\ Mini.shown MODE_SYSTEM "x + y - 1, x + y - 2" = lit "No solution found.".
Proof.
  split; [reflexivity|]. unfold Mini.shown.
  rewrite (@no_solution_shown Mini.engine
             (Mini.window MODE_SYSTEM "x + y - 1, x + y - 2")
             (snd (parse_equations
                     (split 44 (lit "x + y - 1, x + y - 2")) [] []
                     (add_events [CallSympify (lit "x + y - 1, x + y - 2")]
                        (Mini.window MODE_SYSTEM "x + y - 1, x + y - 2"))))
             120%N (lit " + y - 1, x + y - 2")
             (lit "(x + y - 1, x + y - 2)")
             [lit "x + y - 1"; lit "x + y - 2"] [lit "y"; lit "x"]
             eq_refl eq_refl eq_refl).
  - reflexivity.
  - vm_compute. reflexivity.
  - reflexivity.
Defined.

(** ** No stale output *)

Section Blind.

Variable E : Engine.

Lemma blind_ret {A} (a : A) : blind (ret (E:=E) a).
Proof. intros g g'. reflexivity. Qed.

Lemma blind_raise {A} (e : exn) : blind (raise (E:=E) (A:=A) e).
Proof. intros g g'. reflexivity. Qed.

Lemma blind_call {A} (ev : event E) (r : exn + A) : blind (call ev r).
Proof. intros g g'. reflexivity. Qed.

Lemma blind_setText (s : str) : blind (setText (E:=E) s).
Proof. intros g g'. reflexivity. Qed.

Lemma blind_bind {A B} (m : M E A) (k : A -> M E B) :
  blind m -> (forall a, blind (k a)) -> blind (bind m k).
Proof.
  intros Hm Hk g g'. unfold bind. specialize (Hm g g').
  destruct (m g) as [[e|a] g1], (m g') as [[e'|a'] g1']; simpl in *;
    try discriminate Hm.
  - now injection Hm as <-.
  - injection Hm as <-. apply Hk.
Qed.

Lemma blind_try_except {A} (m : M E A) (h : exn -> M E A) :
  blind m -> (forall e, blind (h e)) -> blind (try_except m h).
Proof.
  intros Hm Hh g g'. unfold try_except. specialize (Hm g g').
  destruct (m g) as [[e|a] g1], (m g') as [[e'|a'] g1']; simpl in *;
    try discriminate Hm.
  - injection Hm as <-. destruct (is_Exception e); [apply Hh|reflexivity].
  - exact Hm.
Qed.

Lemma blind_try_except_TypeError {A} (m h : M E A) :
  blind m -> blind h -> blind (try_except_TypeError m h).
Proof.
  intros Hm Hh g g'. unfold try_except_TypeError. specialize (Hm g g').
  destruct (m g) as [[e|a] g1], (m g') as [[e'|a'] g1']; simpl in *;
    try discriminate Hm.
  - injection Hm as <-.
    destruct (exn_type e); [apply Hh|reflexivity|reflexivity].
  - exact Hm.
Qed.

Lemma plot_graph_blind (expr : Expr E) : blind (plot_graph expr).
Proof.
  unfold plot_graph, emit.
  apply blind_bind; [apply blind_call|]. intros _.
  apply blind_bind.
  - apply blind_try_except_TypeError.
    + apply blind_bind; [apply blind_call|]. intros fl.
      apply blind_bind; [apply blind_call|]. intros y.
      apply blind_bind; [apply blind_call|]. intros _. apply blind_ret.
    + apply blind_bind; [apply blind_setText|]. intros _. apply blind_ret.
  - intros [|]; [|apply blind_ret].
    repeat (apply blind_bind; [apply blind_call|]; intros _).
    apply blind_call.
Qed.

Lemma parse_equations_blind (eqs : list str) :
  forall equations variables,
    blind (parse_equations (E:=E) eqs equations variables).
Proof.
  induction eqs as [|eq rest IH]; intros equations variables; simpl.
  - apply blind_ret.
  - apply blind_bind.
    { intros g g'. apply rewrite_equation_pure. }
    intros eq'. apply blind_bind; [apply blind_call|]. intros expr.
    apply blind_bind; [apply blind_call|]. intros names. apply IH.
Qed.

Lemma evalf_all_blind (sols : list (Expr E)) : blind (evalf_all sols).
Proof.
  induction sols as [|sol rest IH]; simpl; [apply blind_ret|].
  apply blind_bind; [apply blind_call|]. intros v.
  apply blind_bind; [exact IH|]. intros vs. apply blind_ret.
Qed.

Lemma solve_system_blind (equation_str : str) :
  blind (solve_system (E:=E) equation_str).
Proof.
  unfold solve_system, solve_system_body.
  apply blind_try_except; [|intros e; apply blind_ret].
  apply blind_bind; [apply parse_equations_blind|]. intros parsed.
  apply blind_bind; [apply blind_call|]. intros [|first rest].
  - apply blind_ret.
  - apply blind_bind; [apply evalf_all_blind|]. intros vs. apply blind_ret.
Qed.

Lemma dispatch_blind (eq_type equation_str : str) (expr : Expr E) :
  blind (dispatch eq_type equation_str expr).
Proof.
  unfold dispatch.
  destruct (PyStr.eqb eq_type MODE_ALGEBRAIC);
    [|destruct (PyStr.eqb eq_type MODE_DIFFERENTIATION);
      [|destruct (PyStr.eqb eq_type MODE_INTEGRATION);
        [|destruct (PyStr.eqb eq_type MODE_SYSTEM)]]].
  1-3: apply blind_bind; [apply blind_call|]; intros r;
       apply blind_bind; [apply plot_graph_blind|]; intros _;
       apply blind_ret.
  - apply solve_system_blind.
  - apply blind_ret.
Qed.

End Blind.

(** X14: whether a click returns normally is determined by the selected
    mode and the input text alone, and every click that returns normally
    overwrites the output field with a text determined by these alone: two
    windows that agree on mode and input end the click alike and, when it
    returns, show the same text, whatever they showed before and whatever
    calls were recorded. *)
Theorem no_stale_output (E : Engine) (g g' : Gui E) :
  equation_type_combo g = equation_type_combo g' ->
  equation_input g = equation_input g' ->
  fst (solve_equation g) = fst (solve_equation g')
  /\ (fst (solve_equation g) = inr tt ->
      solution_output (snd (solve_equation g))
      = solution_output (snd (solve_equation g'))).
Proof.
  intros Hm Hi.
  destruct (strip (equation_input g)) as [|c rest] eqn:Hs.
  - unfold solve_equation, currentText, text. rewrite !bind_run.
    rewrite <- Hi, Hs. now split.
  - assert (Hs' : strip (equation_input g') = c :: rest) by now rewrite <- Hi.
    rewrite (solve_equation_run g Hs), (solve_equation_run g' Hs').
    rewrite !solve_equation_body_run, <- Hm.
    destruct (sympify E (c :: rest)) as [e|expr].
    { destruct (is_Exception e); simpl; split; try reflexivity.
      discriminate. }
    pose proof (dispatch_blind (equation_type_combo g) (c :: rest) expr
                  (add_events [CallSympify (c :: rest)] g)
                  (add_events [CallSympify (c :: rest)] g')) as Hb.
    destruct (dispatch _ _ _ (add_events _ g)) as [[e|s] g1],
             (dispatch _ _ _ (add_events _ g')) as [[e'|s'] g1'];
      simpl in Hb; try discriminate Hb.
    + injection Hb as <-.
      destruct (is_Exception e); simpl; split; try reflexivity.
      discriminate.
    + injection Hb as <-. simpl. now split.
Qed.

Lemma no_stale_output_witness :
  fst (solve_equation (Mini.window MODE_INTEGRATION "2*x")) = inr tt
  /\ solution_output
       (snd (solve_equation
               (Mini.window MODE_INTEGRATION "2*x")))
     = solution_output
         (snd (solve_equation
                 (with_output (lit "f'(x) = 2*x")
                    (Mini.window MODE_INTEGRATION "2*x")))).
Proof.
  assert (Hret : fst (solve_equation (Mini.window MODE_INTEGRATION "2*x"))
                 = inr tt) by (vm_compute; reflexivity).
  split; [exact Hret|].
  exact (proj2 (@no_stale_output Mini.engine
                  (Mini.window MODE_INTEGRATION "2*x")
                  (with_output (lit "f'(x) = 2*x")
                     (Mini.window MODE_INTEGRATION "2*x"))
                  eq_refl eq_refl) Hret).
Defined.
